(** * gitdata: field extraction and page aggregation

    A shallow embedding of the extraction core of [gitdata.py]:
    [nested_json_value] (the nested field resolver), [data_fields] (the
    record projector), [default_fields] and the record loop that ends
    [github_data] (the page aggregator), together with the process-wide
    accumulator [_settings.unknownfieldname].

    Python values are embedded as follows.
    - [str] is a Rocq [string], read as the UTF-8 bytes of the Python string.
      The only characters the code inspects ('.', '_', the letters of 'url'
      and of 'private') are ASCII, so byte-wise [split], [count], [replace]
      and [endswith] agree with Python's.  [lower] folds 'A'..'Z' only; no
      non-ASCII code point lower-cases to a letter of 'private', so the test
      [fldname.lower() == 'private'] is decided the same way.
    - a value decoded by [json.loads] is a [json]; Python's [None] is [JNull].
    - a [dict] and a [collections.OrderedDict] are association lists in
      insertion order ([odict]); a Python dict has pairwise distinct keys,
      which statements that need it assume as [od_wf].
    - the set [_settings.unknownfieldname] is a [gset string].
    - an exception is an [exn]; a computation that reads or grows the
      accumulator and may raise is an [M A]. *)

From Stdlib Require Import ZArith Floats Ascii String List Lia.
From stdpp Require Import base decidable option list strings gmap sets.

Local Open Scope string_scope.
Local Open Scope list_scope.

(** ** Python strings *)

Module Str.

(** [s.count(c)] for a one-character [c]. *)
Fixpoint count (s : string) (c : ascii) : nat :=
  match s with
  | EmptyString => 0
  | String a rest => (if Ascii.eqb a c then 1 else 0) + count rest c
  end.

(** [s.split(c)] for a one-character separator [c]: every occurrence of
    [c] ends a piece, empty pieces are kept, and the result has at least
    one piece. *)
Fixpoint split (s : string) (c : ascii) : list string :=
  match s with
  | EmptyString => [EmptyString]
  | String a rest =>
      if Ascii.eqb a c then EmptyString :: split rest c
      else match split rest c with
           | piece :: pieces => String a piece :: pieces
           | [] => [String a EmptyString]
           end
  end.

(** [s.replace(c, d)] for one-character [c] and [d]. *)
Fixpoint replace (s : string) (c d : ascii) : string :=
  match s with
  | EmptyString => EmptyString
  | String a rest => String (if Ascii.eqb a c then d else a) (replace rest c d)
  end.

Definition lower_ascii (a : ascii) : ascii :=
  let n := nat_of_ascii a in
  if (65 <=? n)%nat && (n <=? 90)%nat then ascii_of_nat (n + 32) else a.

(** [s.lower()]. *)
Fixpoint lower (s : string) : string :=
  match s with
  | EmptyString => EmptyString
  | String a rest => String (lower_ascii a) (lower rest)
  end.

(** [s.endswith(suffix)]. *)
Fixpoint endswith (s suffix : string) : bool :=
  if String.eqb s suffix then true
  else match s with
       | EmptyString => false
       | String _ rest => endswith rest suffix
       end.

End Str.

(** ** JSON values and ordered dictionaries *)

#[warnings="-register-all"]
Inductive json : Type :=
| JNull
| JBool (b : bool)
| JInt (n : Z)
| JFloat (x : float)
| JStr (s : string)
| JList (items : list json)
| JDict (entries : list (string * json)).

(** A [dict] / [OrderedDict] with string keys, in insertion order. *)
Definition odict : Type := list (string * json).

Definition od_keys (d : odict) : list string := map fst d.

(** The keys of a Python dictionary are pairwise distinct. *)
Definition od_wf (d : odict) : Prop := List.NoDup (od_keys d).

(** [k in d] and the lookup behind [d[k]]. *)
Fixpoint od_get (d : odict) (k : string) : option json :=
  match d with
  | [] => None
  | (k', v) :: rest => if String.eqb k' k then Some v else od_get rest k
  end.

Definition od_mem (d : odict) (k : string) : bool :=
  match od_get d k with Some _ => true | None => false end.

(** [d[k] = v]: an existing key keeps its position and takes the new value,
    a new key is appended. *)
Fixpoint od_set (d : odict) (k : string) (v : json) : odict :=
  match d with
  | [] => [(k, v)]
  | (k', v') :: rest =>
      if String.eqb k' k then (k', v) :: rest else (k', v') :: od_set rest k v
  end.

(** [d.update(other)]: assigns the entries of [other] in its own order. *)
Definition od_update (d other : odict) : odict :=
  fold_left (fun acc kv => od_set acc (fst kv) (snd kv)) other d.

(** Truth value of a Python object, as tested by [x if v else y]. *)
Definition truthy (v : json) : bool :=
  match v with
  | JNull => false
  | JBool b => b
  | JInt n => negb (Z.eqb n 0)
  | JFloat x => negb (PrimFloat.eqb x PrimFloat.zero)
  | JStr s => negb (String.eqb s "")
  | JList l => match l with [] => false | _ => true end
  | JDict d => match d with [] => false | _ => true end
  end.

(** ** Exceptions and the accumulator of unknown field names *)

Inductive exn : Type :=
| KeyError (key : string)
| TypeError
| IndexError.

Inductive res (A : Type) : Type :=
| Ok (a : A)
| Raise (e : exn).
Arguments Ok {A} a.
Arguments Raise {A} e.

Definition res_bind {A B} (r : res A) (k : A -> res B) : res B :=
  match r with
  | Ok a => k a
  | Raise e => Raise e
  end.

(** [v[k]] for a string [k]: only a dict accepts a string subscript
    ([KeyError] when the key is absent); a list, a string, a number, a bool
    and [None] all raise [TypeError]. *)
Definition getitem (v : json) (k : string) : res json :=
  match v with
  | JDict d => match od_get d k with
               | Some x => Ok x
               | None => Raise (KeyError k)
               end
  | _ => Raise TypeError
  end.

(** [l[i]] on a list. *)
Definition list_index {A} (l : list A) (i : nat) : res A :=
  match nth_error l i with
  | Some a => Ok a
  | None => Raise IndexError
  end.

(** [_settings.unknownfieldname]. *)
Abbreviation unknown_set := (gset string).

(** A computation over the accumulator; the accumulator survives a raise. *)
Definition M (A : Type) : Type := unknown_set -> res A * unknown_set.

Definition ret {A} (a : A) : M A := fun st => (Ok a, st).

Definition raise {A} (e : exn) : M A := fun st => (Raise e, st).

Definition bind {A B} (m : M A) (k : A -> M B) : M B :=
  fun st =>
    match m st with
    | (Ok a, st') => k a st'
    | (Raise e, st') => (Raise e, st')
    end.

Definition lift {A} (r : res A) : M A := fun st => (r, st).

(** [_settings.unknownfieldname.add(name)]. *)
Definition unknownfieldname_add (name : string) : M unit :=
  fun st => (Ok tt, {[ name ]} ∪ st).

Declare Scope py_scope.
Delimit Scope py_scope with py.
Notation "'let!' x ':=' m 'in' k" := (bind m (fun x => k))
  (at level 10, x name, m at level 100, k at level 200) : py_scope.
Notation "'run!' m 'in' k" := (bind m (fun _ => k))
  (at level 10, m at level 100, k at level 200) : py_scope.
Notation "'let?' x ':=' r 'in' k" := (res_bind r (fun x => k))
  (at level 10, x name, r at level 100, k at level 200) : py_scope.

(** [try: body  except (TypeError, KeyError): handler], for a body that
    only subscripts. *)
Definition try_except {A} (body : res A) (handler : M A) : M A :=
  match body with
  | Ok a => ret a
  | Raise (KeyError _) => handler
  | Raise TypeError => handler
  | Raise e => raise e
  end.

(** ** The nested field resolver *)

Definition nested_json_value (nested_dict : json) (dot_fldname : string)
  : M json :=
  let depth := Str.count dot_fldname "." + 1 in
  let keys := Str.split dot_fldname "." in
  let not_found := (run! unknownfieldname_add dot_fldname in ret JNull)%py in
  if Nat.eqb depth 1 then
    try_except (getitem nested_dict dot_fldname) not_found
  else if Nat.eqb depth 2 then
    try_except
      (let? k0 := list_index keys 0 in let? v0 := getitem nested_dict k0 in
       let? k1 := list_index keys 1 in getitem v0 k1)%py
      not_found
  else if Nat.eqb depth 3 then
    try_except
      (let? k0 := list_index keys 0 in let? v0 := getitem nested_dict k0 in
       let? k1 := list_index keys 1 in let? v1 := getitem v0 k1 in
       let? k2 := list_index keys 2 in getitem v1 k2)%py
      not_found
  else if Nat.eqb depth 4 then
    try_except
      (let? k0 := list_index keys 0 in let? v0 := getitem nested_dict k0 in
       let? k1 := list_index keys 1 in let? v1 := getitem v0 k1 in
       let? k2 := list_index keys 2 in let? v2 := getitem v1 k2 in
       let? k3 := list_index keys 3 in getitem v2 k3)%py
      not_found
  else
    try_except
      (let? k0 := list_index keys 0 in let? v0 := getitem nested_dict k0 in
       let? k1 := list_index keys 1 in let? v1 := getitem v0 k1 in
       let? k2 := list_index keys 2 in let? v2 := getitem v1 k2 in
       let? k3 := list_index keys 3 in let? v3 := getitem v2 k3 in
       let? k4 := list_index keys 4 in getitem v3 k4)%py
      not_found.

(** ** The record projector *)

(** [default_fields(entity)]. *)
Definition default_fields (entity : option string) : list string :=
  match entity with
  | Some e =>
      if String.eqb e "member" then ["login"; "id"; "type"]
      else if String.eqb e "repo" then ["name"; "owner.login"]
      else if String.eqb e "team" then ["name"; "id"; "privacy"; "permission"]
      else if String.eqb e "org" then ["login"; "user"]
      else if String.eqb e "collab" then ["login"; "owner"; "repo"; "id"]
      else if String.eqb e "commit" then
        ["commit.committer.date"; "committer.login"; "commit.message"]
      else ["name"]
  | None => ["name"]
  end.

(** [x in l] for a list of strings. *)
Definition str_in (x : string) (l : list string) : bool :=
  existsb (String.eqb x) l.

(** Truth value of the [constants] argument: [None] and [{}] are false. *)
Definition constants_given (constants : option odict) : bool :=
  match constants with
  | Some (_ :: _) => true
  | _ => false
  end.

Definition constants_dict (constants : option odict) : odict :=
  match constants with
  | Some c => c
  | None => []
  end.

(** A [for] loop that threads its local variable [s] through the body. *)
Fixpoint for_each {A S} (body : S -> A -> M S) (l : list A) (s : S) : M S :=
  match l with
  | [] => ret s
  | a :: rest => (let! s' := body s a in for_each body rest s')%py
  end.

(** The dict comprehension of the 'nourls' case:
    [{key: value for (key, value) in this_item.items()
      if not key.endswith('url')}]. *)
Definition drop_url_keys (d : odict) : odict :=
  List.filter (fun kv => negb (Str.endswith (fst kv) "url")) d.

(** Body of [for fldname in jsondata] in the shorthand branch; [mode] is
    [fields[0]]. *)
Definition special_step (mode : string) (jsondata : odict)
    (values : odict) (fldname : string) : M odict :=
  if String.eqb mode "*"
     || (String.eqb mode "urls" && Str.endswith fldname "url")
     || (String.eqb mode "nourls" && negb (Str.endswith fldname "url"))
  then
    (let! this_item := lift (getitem (JDict jsondata) fldname) in
     match this_item with
     | JDict d =>
         if String.eqb mode "nourls"
         then ret (od_set values fldname (JDict (drop_url_keys d)))
         else ret (od_set values fldname this_item)
     | _ => ret (od_set values fldname this_item)
     end)%py
  else ret values.

(** Body of [for fldname in fields] in the branch for an actual list of
    field names. *)
Definition field_step (jsondata : odict) (constants : option odict)
    (values : odict) (fldname : string) : M odict :=
  if constants_given constants && od_mem (constants_dict constants) fldname
  then
    (let! c := lift (getitem (JDict (constants_dict constants)) fldname) in
     ret (od_set values fldname c))%py
  else
    (let! v := nested_json_value (JDict jsondata) fldname in
     let values := od_set values (Str.replace fldname "." "_") v in
     if String.eqb (Str.lower fldname) "private" then
       let! p := lift (getitem (JDict jsondata) fldname) in
       ret (od_set values fldname
              (JStr (if truthy p then "private" else "public")))
     else ret values)%py.

(** [data_fields(entity=, jsondata=, fields=, constants=)].  [jsondata] is
    one item of an API payload, a JSON object. *)
Definition data_fields (entity : option string) (jsondata : odict)
    (fields : option (list string)) (constants : option odict) : M odict :=
  let fields :=
    match fields with
    | Some (f :: fs) => f :: fs
    | _ => default_fields entity
    end in
  (let! mode := lift (list_index fields 0) in
   if str_in mode ["*"; "urls"; "nourls"] then
     let values :=
       if constants_given constants && str_in mode ["*"; "nourls"]
       then od_update [] (constants_dict constants)
       else [] in
     for_each (special_step mode jsondata) (od_keys jsondata) values
   else
     for_each (field_step jsondata constants) fields [])%py.

(** ** The page aggregator *)

(** Modelled from the spec: [github_allpages] belongs to the HTTP client
    (package [githuberino]), which is not part of this repository.  Per
    the spec it follows the pagination links and hands over the items of
    every page, pages in arrival order and items in their order within the
    page. *)
Definition github_allpages (pages : list (list odict)) : list odict :=
  concat pages.

(** The record loop that ends [github_data]:
    [retval = []; for json_item in all_fields: retval.append(data_fields(...))].
    [all_fields] is the list the loop runs over: the items read back from
    the cache file or, on the API branch, the items [github_allpages]
    returned as [cache_update] has left them (the whole branch is
    [github_data_from_api] below). *)
Definition github_data (entity : option string)
    (fields : option (list string)) (constants : option odict)
    (all_fields : list odict) : M (list odict) :=
  for_each
    (fun retval json_item =>
       (let! record := data_fields entity json_item fields constants in
        ret (retval ++ [record]))%py)
    all_fields [].

(** ** The resolver as the specification words it *)

(** Walk the payload one segment at a time; a hop fails when the current
    value is not a mapping or the key is absent. *)
Fixpoint resolve_spec (v : json) (segments : list string) : option json :=
  match segments with
  | [] => Some v
  | k :: rest =>
      match v with
      | JDict d =>
          match od_get d k with
          | Some v' => resolve_spec v' rest
          | None => None
          end
      | _ => None
      end
  end.

(** The two outcomes of a lookup: the value found, the accumulator left
    alone; or [None], the path recorded. *)
Definition lookup_outcome (path : string) (found : option json) : M json :=
  fun st =>
    match found with
    | Some v => (Ok v, st)
    | None => (Ok JNull, {[ path ]} ∪ st)
    end.

(** The segments of a dotted path. *)
Definition segments (path : string) : list string := Str.split path ".".

(** ** Vocabulary of the statements *)

(** The value the resolver returns for [path] on the item [jsondata]. *)
Definition resolved (jsondata : odict) (path : string) : json :=
  match fst (nested_json_value (JDict jsondata) path ∅) with
  | Ok v => v
  | Raise _ => JNull
  end.

(** [path] resolves in the item: its (first five) segments lead to a value. *)
Definition resolves (jsondata : odict) (path : string) : bool :=
  match resolve_spec (JDict jsondata) (firstn 5 (segments path)) with
  | Some _ => true
  | None => false
  end.

(** The output key of a requested path: [fldname.replace('.', '_')]. *)
Definition output_key (path : string) : string := Str.replace path "." "_".

(** [fields] is an actual list of field names: it is not empty and does
    not start with one of the shorthand values. *)
Definition explicit_mode (fields : list string) : bool :=
  match fields with
  | [] => false
  | f0 :: _ => negb (str_in f0 ["*"; "urls"; "nourls"])
  end.

(** [fldname] is taken from [constants] by the projector. *)
Definition is_constant (constants : option odict) (fldname : string) : bool :=
  constants_given constants && od_mem (constants_dict constants) fldname.

Definition is_private (fldname : string) : bool :=
  String.eqb (Str.lower fldname) "private".

(** A requested field that goes through the resolver only: neither a
    constant nor the 'private' special case. *)
Definition plain_field (constants : option odict) (fldname : string) : bool :=
  negb (is_constant constants fldname) && negb (is_private fldname).

(** The assignment the projector makes for a plain field. *)
Definition assign_resolved (jsondata : odict) (values : odict)
    (fldname : string) : odict :=
  od_set values (output_key fldname) (resolved jsondata fldname).

(** The requested paths that the resolver records for one item. *)
Definition unknown_in (jsondata : odict) (fields : list string)
  : unknown_set :=
  list_to_set (List.filter (fun f => negb (resolves jsondata f)) fields).

(** A computation that only ever adds to the accumulator, and whose result
    and additions do not depend on what the accumulator already holds. *)
Definition additive {A} (m : M A) : Prop :=
  exists (r : res A) (added : unknown_set), forall st, m st = (r, added ∪ st).

(** The first exception of a list of outcomes, or all their values. *)
Fixpoint collect {A} (outcomes : list (res A)) : res (list A) :=
  match outcomes with
  | [] => Ok []
  | Ok a :: rest =>
      match collect rest with
      | Ok l => Ok (a :: l)
      | Raise e => Raise e
      end
  | Raise e :: _ => Raise e
  end.

(** What the projector returns for one item, the accumulator set aside. *)
Definition projected (entity : option string) (fields : option (list string))
    (constants : option odict) (jsondata : odict) : res odict :=
  fst (data_fields entity jsondata fields constants ∅).

(** What the 'nourls' shorthand does to a selected value: a mapping loses
    its own keys that end in 'url', anything else is kept as it is. *)
Definition strip_urls (v : json) : json :=
  match v with
  | JDict d => JDict (drop_url_keys d)
  | _ => v
  end.

Definition ends_with_url (kv : string * json) : bool :=
  Str.endswith (fst kv) "url".

(** The test of the shorthand branch: is the top-level key [fldname]
    selected under [mode]? *)
Definition selected (mode : string) (kv : string * json) : bool :=
  String.eqb mode "*"
  || (String.eqb mode "urls" && Str.endswith (fst kv) "url")
  || (String.eqb mode "nourls" && negb (Str.endswith (fst kv) "url")).

(** The entry the shorthand branch emits for a selected entry. *)
Definition emitted (mode : string) (kv : string * json) : string * json :=
  (fst kv, if String.eqb mode "nourls" then strip_urls (snd kv) else snd kv).

(** The record the projector builds from plain fields for one item. *)
Definition plain_record (fields : list string) (jsondata : odict) : odict :=
  fold_left (assign_resolved jsondata) fields [].

(** The requested paths recorded over a whole batch. *)
Definition unknown_in_batch (fields : list string) (items : list odict)
  : unknown_set :=
  ⋃ (map (fun jsondata => unknown_in jsondata fields) items).

(** ** More of the program: strings *)

Module StrOps.

(** [s.lstrip(c)] and [s.rstrip(c)] for a one-character [c]. *)
Fixpoint lstrip (s : string) (c : ascii) : string :=
  match s with
  | EmptyString => EmptyString
  | String a rest => if Ascii.eqb a c then lstrip rest c else s
  end.

Fixpoint rstrip (s : string) (c : ascii) : string :=
  match s with
  | EmptyString => EmptyString
  | String a rest =>
      match rstrip rest c with
      | EmptyString => if Ascii.eqb a c then EmptyString else String a EmptyString
      | kept => String a kept
      end
  end.

(** [s.strip(c)]. *)
Definition strip (s : string) (c : ascii) : string := rstrip (lstrip s c) c.

(** [c in s]. *)
Fixpoint contains (s : string) (c : ascii) : bool :=
  match s with
  | EmptyString => false
  | String a rest => Ascii.eqb a c || contains rest c
  end.

(** [s.find(c)]: the index of the first [c], or -1. *)
Fixpoint find (s : string) (c : ascii) : Z :=
  match s with
  | EmptyString => (-1)%Z
  | String a rest =>
      if Ascii.eqb a c then 0%Z
      else let i := find rest c in if (i <? 0)%Z then (-1)%Z else (i + 1)%Z
  end.

Fixpoint take (n : nat) (s : string) : string :=
  match n, s with
  | S n', String a rest => String a (take n' rest)
  | _, _ => EmptyString
  end.

Fixpoint drop (n : nat) (s : string) : string :=
  match n, s with
  | S n', String _ rest => drop n' rest
  | _, _ => s
  end.

(** The position a slice bound [i] denotes in a string of length [len]:
    a negative bound counts from the end, and the bound is clipped. *)
Definition slice_bound (len : nat) (i : Z) : nat :=
  if (i <? 0)%Z then Z.to_nat (Z.of_nat len + i) else Nat.min (Z.to_nat i) len.

(** [s[:i]], [s[i:]] and [s[i:j]]. *)
Definition slice_to (s : string) (i : Z) : string :=
  take (slice_bound (String.length s) i) s.

Definition slice_from (s : string) (i : Z) : string :=
  drop (slice_bound (String.length s) i) s.

Definition slice (s : string) (i j : Z) : string :=
  let lo := slice_bound (String.length s) i in
  let hi := slice_bound (String.length s) j in
  take (hi - lo) (drop lo s).

(** [sep.join(l)]. *)
Fixpoint join (sep : string) (l : list string) : string :=
  match l with
  | [] => EmptyString
  | [x] => x
  | x :: rest => x +:+ sep +:+ join sep rest
  end.

(** Every character is an ASCII character: on such strings positions in
    the byte string are positions in the Python string. *)
Fixpoint ascii_only (s : string) : bool :=
  match s with
  | EmptyString => true
  | String a rest => (nat_of_ascii a <? 128)%nat && ascii_only rest
  end.

End StrOps.

(** Truth value of an optional string: [None] and [''] are false. *)
Definition str_given (s : option string) : bool :=
  match s with
  | Some (String _ _) => true
  | _ => false
  end.

(** ** More of the program: access tokens and authentication *)

(** [token_abbr(accesstoken)]. *)
Definition token_abbr (accesstoken : option string) : string :=
  match accesstoken with
  | Some (String a rest) =>
      let t := String a rest in
      StrOps.slice t 0 2 +:+ "..." +:+ StrOps.slice_from t (-2)
  | _ => "*none*"
  end.

(** The two settings of [_settings] that [auth_config] manages.  A setting
    holds a string or [None]. *)
Record auth_settings : Type := {
  username : option string;
  accesstoken : option string
}.

(** The [settings] argument of [auth_config]: [None], or a dictionary in
    which each of the two keys is present (with a string or [None]) or
    absent; other keys are not looked at. *)
Record auth_request : Type := {
  req_username : option (option string);
  req_accesstoken : option (option string);
  req_other_keys : bool
}.

Definition request_given (settings : option auth_request) : bool :=
  match settings with
  | Some r =>
      match req_username r, req_accesstoken r with
      | None, None => req_other_keys r
      | _, _ => true
      end
  | None => false
  end.

Section Authentication.

(** [setting('github', username, 'pat')] of the package dougerino: the
    personal access token stored for a user name, if any. *)
Variable stored_pat : string -> option string.

(** [auth_config(settings)]: the new settings, the lines echoed, and the
    dictionary returned.  A user name in the request is a string or [None];
    looking up the token of a name given as [None] is not reached, since
    [None] is false. *)
Definition auth_config (settings : option auth_request) (current : auth_settings)
  : auth_settings * list string * auth_settings :=
  let '(settings, echoed) :=
    match settings with
    | Some r =>
        match req_username r, req_accesstoken r with
        | Some name, None =>
            if str_given name then
              let user := match name with Some u => u | None => "" end in
              let pat := stored_pat user in
              (Some {| req_username := req_username r;
                       req_accesstoken := Some pat;
                       req_other_keys := req_other_keys r |},
               if str_given pat then []
               else ["Unknown authentication username: " +:+ user])
            else
              (Some {| req_username := req_username r;
                       req_accesstoken := Some None;
                       req_other_keys := req_other_keys r |}, [])
        | _, _ => (Some r, [])
        end
    | None => (None, [])
    end in
  let updated :=
    if request_given settings then
      match settings with
      | Some r =>
          {| username := match req_username r with
                         | Some v => v
                         | None => username current
                         end;
             accesstoken := match req_accesstoken r with
                            | Some v => v
                            | None => accesstoken current
                            end |}
      | None => current
      end
    else current in
  (updated, echoed, updated).

End Authentication.

(** [auth_user()]: the credentials tuple, or [None]. *)
Definition auth_user (current : auth_settings)
  : option (option string * option string) :=
  if str_given (username current)
  then Some (username current, accesstoken current)
  else None.

(** ** More of the program: the cache of API responses *)

Section Cache.

(** [os.path.join] and the folder of the module,
    [os.path.dirname(os.path.realpath(__file__))]. *)
Variable path_join : string -> string -> string.
Variable source_folder : string.

(** The local variable [filename] of [cache_filename], when it is joined
    to the folder: the user name, an underscore, the endpoint with its
    slashes turned into dashes and the dashes at both ends removed, cut at
    the first question mark. *)
Definition cache_name (current : auth_settings) (endpoint : string)
    (auth : option string) : string :=
  let auth :=
    if str_given auth then match auth with Some a => a | None => "" end
    else if str_given (username current)
         then match username current with Some u => u | None => "" end
         else "_anon" in
  let filename :=
    auth +:+ "_" +:+ StrOps.strip (Str.replace endpoint "/" "-") "-" in
  if StrOps.contains filename "?"
  then StrOps.slice_to filename (StrOps.find filename "?")
  else filename.

(** [cache_filename(endpoint, auth)]. *)
Definition cache_filename (current : auth_settings) (endpoint : string)
    (auth : option string) : string :=
  path_join source_folder
    ("gh_cache/" +:+ cache_name current endpoint auth +:+ ".json").

End Cache.

(** The endpoint [membersget] queries.  With neither a team nor an
    organization the concatenation with [None] raises [TypeError]. *)
Definition membersget_endpoint (org team : option string)
    (audit2fa adminonly : bool) : res string :=
  if str_given team then
    Ok ("/teams/" +:+ match team with Some t => t | None => "" end
        +:+ "/members?per_page=100")
  else
    match org with
    | Some o =>
        Ok ("/orgs/" +:+ o +:+ "/members?per_page=100"
            +:+ (if audit2fa then "&filter=2fa_disabled" else "")
            +:+ (if adminonly then "&role=admin" else ""))
    | None => Raise TypeError
    end.

(** The endpoint the [collabs] command queries, for an owner and a
    repository (both checked to be non-empty strings before). *)
Definition collabs_endpoint (owner repo : string) (audit2fa : bool) : string :=
  "/repos/" +:+ owner +:+ "/" +:+ repo +:+ "/collaborators?per_page=100"
  +:+ (if audit2fa then "&filter=2fa_disabled" else "").

(** A loop over a list whose body may raise. *)
Fixpoint res_fold {A S} (body : S -> A -> res S) (l : list A) (s : S)
  : res S :=
  match l with
  | [] => Ok s
  | a :: rest => res_bind (body s a) (res_fold body rest)
  end.

Fixpoint res_map {A B} (f : A -> res B) (l : list A) : res (list B) :=
  match l with
  | [] => Ok []
  | a :: rest =>
      res_bind (f a) (fun b =>
      res_bind (res_map f rest) (fun bs => Ok (b :: bs)))
  end.

(** [for fldname in constants: data_item[fldname] = constants[fldname]]. *)
Definition add_constants (constants : odict) (data_item : odict) : res odict :=
  res_fold
    (fun item fldname =>
       res_bind (getitem (JDict constants) fldname)
         (fun c => Ok (od_set item fldname c)))
    (od_keys constants) data_item.

(** [cache_update(endpoint, payload, constants)], as far as the payload
    goes: the items of [payload] after the call.  The items are updated in
    place, so this is both what the cache file receives and what the
    caller's list holds afterwards. *)
Definition cache_update (payload : list odict) (constants : option odict)
  : res (list odict) :=
  if constants_given constants
  then res_map (add_constants (constants_dict constants)) payload
  else Ok payload.

(** The branch [read_from == 'a'] of [github_data]: [payload] is what
    [github_allpages] returned; [cache_update] runs on it, and the record
    loop then runs over the same, updated, items. *)
Definition github_data_from_api (entity : option string)
    (fields : option (list string)) (constants : option odict)
    (payload : list odict) : M (list odict) :=
  bind (lift (cache_update payload constants))
    (fun all_fields => github_data entity fields constants all_fields).

(** ** More of the program: the sort key and the fields option *)

Section SortKey.

(** [str(value)] and [str.lower] of Python, on any value and any string. *)
Variable py_str : json -> string.
Variable py_lower : string -> string.

(** [data_sort(datadict)]. *)
Definition data_sort (datadict : odict) : res string :=
  res_bind (list_index (od_keys datadict) 0) (fun sortkey =>
  res_bind (getitem (JDict datadict) sortkey) (fun v =>
  Ok (py_lower (py_str v)))).

End SortKey.

(** [fldnames = fields.split('/') if fields else None], the reading of the
    [--fields] option in every command. *)
Definition fldnames (fields : string) : option (list string) :=
  match fields with
  | EmptyString => None
  | _ => Some (Str.split fields "/")
  end.

(** The default fields as [list_fields] displays them:
    ['/'.join(default_fields(entity))]. *)
Definition default_fields_shown (entity : option string) : string :=
  StrOps.join "/" (default_fields entity).

(** The field names [data_fields] works with: the given ones, or the
    defaults of the entity when none is given. *)
Definition requested (entity : option string) (fields : option (list string))
  : list string :=
  match fields with
  | Some (f :: fs) => f :: fs
  | _ => default_fields entity
  end.

(** The one way a requested field makes the projector raise: it is named
    'private' in some letter case, it is not taken from the constants, and
    the item has no such key. *)
Definition fails_on (jsondata : odict) (constants : option odict)
    (fldname : string) : bool :=
  is_private fldname && negb (is_constant constants fldname)
  && negb (od_mem jsondata fldname).

(** The key under which the projector puts a requested field first. *)
Definition first_assigned (constants : option odict) (fldname : string)
  : string :=
  if is_constant constants fldname then fldname else output_key fldname.

(** The first segment of a dotted path. *)
Definition first_segment (path : string) : string :=
  hd EmptyString (segments path).

(** A requested field that is resolved in the item, under a top-level key
    that the constants have too. *)
Definition shadowed (constants : option odict) (fldname : string) : bool :=
  negb (is_constant constants fldname)
  && od_mem (constants_dict constants) (first_segment fldname).

(** The entries the shorthand branch assigns for an item, in order. *)
Definition shorthand_entries (mode : string) (jsondata : odict) : odict :=
  map (emitted mode) (List.filter (selected mode) jsondata).

(** The user name [cache_filename] builds the name from: the [auth]
    argument, else the configured user name, else '_anon'. *)
Definition cache_user (current : auth_settings) (auth : option string)
  : string :=
  if str_given auth then match auth with Some a => a | None => "" end
  else if str_given (username current)
       then match username current with Some u => u | None => "" end
       else "_anon".

(** The part of a string before the first [c]. *)
Fixpoint before (s : string) (c : ascii) : string :=
  match s with
  | EmptyString => EmptyString
  | String a rest => if Ascii.eqb a c then EmptyString else String a (before rest c)
  end.

(** ** More of the program: the link data of ghaudit *)

(** A dictionary from strings to strings, in insertion order. *)
Definition sdict : Type := list (string * string).

Fixpoint sd_get (d : sdict) (k : string) : option string :=
  match d with
  | [] => None
  | (k', v) :: rest => if String.eqb k' k then Some v else sd_get rest k
  end.

Fixpoint sd_set (d : sdict) (k v : string) : sdict :=
  match d with
  | [] => [(k, v)]
  | (k', v') :: rest =>
      if String.eqb k' k then (k', v) :: rest else (k', v') :: sd_set rest k v
  end.

(** The lines a loop of ghaudit works on: all but the first line read,
    which is the header ([if firstline: firstline = False; continue]). *)
Definition data_lines (lines : list string) : list string :=
  match lines with
  | [] => []
  | _ :: rest => rest
  end.

Section LinkData.

(** [str.lower] and [str.strip] of Python, on any string. *)
Variable py_lower : string -> string.
Variable py_strip : string -> string.

(** The loop of [islinked] that fills [_settings.linked]. *)
Definition linked_names (lines : list string) : res (list string) :=
  res_map
    (fun line =>
       res_bind (list_index (Str.split line ",") 0)
         (fun name => Ok (py_lower name)))
    (data_lines lines).

(** [islinked(username)]: [linked] is the attribute [_settings.linked]
    when it exists, [lines] what the link data file holds; the answer and
    the attribute afterwards. *)
Definition islinked (linked : option (list string)) (lines : list string)
    (username : string) : res (bool * option (list string)) :=
  res_bind
    (match linked with
     | Some names => Ok names
     | None => linked_names lines
     end)
    (fun names => Ok (str_in (py_lower username) names, Some names)).

(** The loop of [linkedemail] that fills [_settings.linkedemail]; the
    dictionary exists before the loop and keeps what was stored when a
    line raises. *)
Fixpoint load_emails (lines : list string) (emails : sdict)
  : res unit * sdict :=
  match lines with
  | [] => (Ok tt, emails)
  | line :: rest =>
      match list_index (Str.split line ",") 1 with
      | Raise e => (Raise e, emails)
      | Ok email =>
          match list_index (Str.split line ",") 0 with
          | Raise e => (Raise e, emails)
          | Ok name =>
              load_emails rest (sd_set emails (py_lower name) (py_strip email))
          end
      end
  end.

(** [linkedemail(username)]: the answer (an address or [None]) and the
    attribute [_settings.linkedemail] afterwards. *)
Definition linkedemail (emails : option sdict) (lines : list string)
    (username : string) : res (option string) * option sdict :=
  match emails with
  | Some d => (Ok (sd_get d (py_lower username)), Some d)
  | None =>
      match load_emails (data_lines lines) [] with
      | (Ok _, d) => (Ok (sd_get d (py_lower username)), Some d)
      | (Raise e, d) => (Raise e, Some d)
      end
  end.

End LinkData.

(** A line with at least two comma-separated fields. *)
Definition has_two_fields (line : string) : bool :=
  (1 <=? Str.count line ",")%nat.

(** ** Vocabulary for any request of field names *)

(** The value the projector assigns for a requested field, on an item on
    which the iteration for that field does not raise: the constant; the
    string for a field named 'private'; else what the resolver returns. *)
Definition assigned_value (jsondata : odict) (constants : option odict)
    (fldname : string) : json :=
  if is_constant constants fldname then
    match od_get (constants_dict constants) fldname with
    | Some c => c
    | None => JNull
    end
  else if is_private fldname then
    JStr (if truthy (match od_get jsondata fldname with
                     | Some p => p
                     | None => JNull
                     end)
          then "private" else "public")
  else resolved jsondata fldname.

(** The assignment the projector makes for a requested field. *)
Definition assign_field (jsondata : odict) (constants : option odict)
    (values : odict) (fldname : string) : odict :=
  od_set values (first_assigned constants fldname)
    (assigned_value jsondata constants fldname).

(** The requested paths that the resolver records for one item: those
    that are not taken from the constants and do not resolve. *)
Definition recorded_for (jsondata : odict) (constants : option odict)
    (fields : list string) : unknown_set :=
  list_to_set
    (List.filter
       (fun f => negb (is_constant constants f || resolves jsondata f))
       fields).

(** The requested paths recorded over a whole batch. *)
Definition recorded_in_batch (constants : option odict)
    (fields : list string) (items : list odict) : unknown_set :=
  ⋃ (map (fun jsondata => recorded_for jsondata constants fields) items).

(** An item as [cache_update] leaves it: the constants put into it. *)
Definition with_constants (constants : option odict) (item : odict) : odict :=
  od_update item (constants_dict constants).

(** * Properties *)

(** ** Strings *)

Section StringFacts.

Variable c : ascii.

Lemma split_length (s : string) :
  length (Str.split s c) = Str.count s c + 1.
Proof.
  induction s as [|a s IH]; simpl; [reflexivity|].
  destruct (Ascii.eqb a c); simpl.
  - now rewrite IH.
  - destruct (Str.split s c) as [|p ps]; simpl in *; lia.
Qed.

Lemma split_without_separator (s : string) :
  Str.count s c = 0 -> Str.split s c = [s].
Proof.
  induction s as [|a s IH]; simpl; [reflexivity|].
  destruct (Ascii.eqb a c); simpl; [discriminate|].
  intros H. now rewrite (IH H).
Qed.

End StringFacts.

(** ** The resolver *)

Lemma getitem_cases (v : json) (k : string) :
  (exists x, getitem v k = Ok x /\ resolve_spec v [k] = Some x)
  \/ (getitem v k = Raise (KeyError k) /\ forall ks, resolve_spec v (k :: ks) = None)
  \/ (getitem v k = Raise TypeError /\ forall ks, resolve_spec v (k :: ks) = None).
Proof.
  destruct v; simpl; try (right; right; split; [reflexivity | intros; reflexivity]).
  destruct (od_get entries k) as [x|].
  - left. exists x. split; reflexivity.
  - right; left. split; [reflexivity | intros; reflexivity].
Qed.

Lemma resolve_spec_step (v x : json) (k : string) (ks : list string) :
  resolve_spec v [k] = Some x ->
  resolve_spec v (k :: ks) = resolve_spec x ks.
Proof.
  destruct v; simpl; try discriminate.
  destruct (od_get entries k); [|discriminate].
  intros [= ->]. reflexivity.
Qed.

(** One hop of the subscript chain, against one hop of [resolve_spec]. *)
Ltac hop v k :=
  let x := fresh "x" in
  let Hg := fresh "Hg" in
  let Hr := fresh "Hr" in
  destruct (getitem_cases v k) as [(x & Hg & Hr) | [[Hg Hr] | [Hg Hr]]];
  rewrite Hg; cbn [res_bind];
  [ rewrite (resolve_spec_step _ _ _ _ Hr) | rewrite Hr; reflexivity
    | rewrite Hr; reflexivity ].

(** Whatever the path, the resolver looks up its first five segments (all
    of them when there are at most five). *)
Lemma nested_json_value_lookup (v : json) (path : string) (st : unknown_set) :
  nested_json_value v path st
  = lookup_outcome path (resolve_spec v (firstn 5 (segments path))) st.
Proof.
  unfold nested_json_value, segments.
  pose proof (split_length "." path) as Hlen.
  pose proof (split_without_separator "." path) as Hone.
  rewrite Nat.add_1_r in Hlen |- *.
  destruct (Str.count path ".") as [|[|[|[|n]]]]; cbn [Nat.eqb].
  - rewrite (Hone eq_refl). cbn [firstn].
    unfold try_except, lookup_outcome. hop v path. reflexivity.
  - destruct (Str.split path ".") as [|k0 [|k1 [|]]]; try discriminate.
    unfold try_except, lookup_outcome, list_index;
      cbn [nth_error firstn res_bind].
    hop v k0. hop x k1. reflexivity.
  - destruct (Str.split path ".") as [|k0 [|k1 [|k2 [|]]]]; try discriminate.
    unfold try_except, lookup_outcome, list_index;
      cbn [nth_error firstn res_bind].
    hop v k0. hop x k1. hop x0 k2. reflexivity.
  - destruct (Str.split path ".") as [|k0 [|k1 [|k2 [|k3 [|]]]]];
      try discriminate.
    unfold try_except, lookup_outcome, list_index;
      cbn [nth_error firstn res_bind].
    hop v k0. hop x k1. hop x0 k2. hop x1 k3. reflexivity.
  - destruct (Str.split path ".") as [|k0 [|k1 [|k2 [|k3 [|k4 rest]]]]];
      try discriminate.
    unfold try_except, lookup_outcome, list_index;
      cbn [nth_error firstn res_bind].
    hop v k0. hop x k1. hop x0 k2. hop x1 k3. hop x2 k4. reflexivity.
Qed.

(** C1. For every payload and every dotted path of one to five segments:
    when every hop of the path lands on a mapping that has the next key
    ([resolve_spec] finds a value) the resolver returns exactly that value
    and leaves the unknown-field set alone; otherwise (a key is absent, or
    a hop lands on a non-mapping such as null) it returns [None], the set
    is the old one with the path added, and in neither case is an exception
    raised. *)
Theorem nested_json_value_resolves
    (payload : json) (path : string) (st : unknown_set) :
  1 <= length (segments path) <= 5 ->
  nested_json_value payload path st
  = match resolve_spec payload (segments path) with
    | Some v => (Ok v, st)
    | None => (Ok JNull, {[ path ]} ∪ st)
    end.
Proof.
  intros [_ Hmax].
  rewrite nested_json_value_lookup, firstn_all2 by exact Hmax.
  reflexivity.
Qed.

Lemma nested_json_value_resolves_witness :
  nested_json_value
    (JDict [("commit",
             JDict [("committer", JDict [("date", JStr "2017-03-01")])])])
    "commit.committer.date" ∅
  = (Ok (JStr "2017-03-01"), ∅)
  /\ nested_json_value
       (JDict [("commit", JNull)]) "commit.committer.date" ∅
     = (Ok JNull, {[ "commit.committer.date" ]} ∪ ∅).
Proof.
  split.
  - apply (nested_json_value_resolves
             (JDict [("commit",
                      JDict [("committer",
                              JDict [("date", JStr "2017-03-01")])])])
             "commit.committer.date" ∅).
    vm_compute. lia.
  - apply (nested_json_value_resolves
             (JDict [("commit", JNull)]) "commit.committer.date" ∅).
    vm_compute. lia.
Defined.

(** C10. A path of more than five segments is not an error: the resolver
    looks up its first five segments and nothing else, so when those five
    resolve it returns the value at depth five (and when they do not, the
    whole path is recorded and [None] returned). *)
Theorem nested_json_value_ignores_extra_segments
    (payload : json) (path : string) (st : unknown_set) :
  5 < length (segments path) ->
  exists k0 k1 k2 k3 k4 extra,
    segments path = [k0; k1; k2; k3; k4] ++ extra
    /\ extra <> []
    /\ nested_json_value payload path st
       = match resolve_spec payload [k0; k1; k2; k3; k4] with
         | Some v => (Ok v, st)
         | None => (Ok JNull, {[ path ]} ∪ st)
         end.
Proof.
  intros Hlen. rewrite nested_json_value_lookup.
  destruct (segments path) as [|k0 [|k1 [|k2 [|k3 [|k4 [|k5 extra]]]]]];
    simpl in Hlen; try lia.
  exists k0, k1, k2, k3, k4, (k5 :: extra).
  split; [reflexivity | split; [discriminate | reflexivity]].
Qed.

Lemma nested_json_value_ignores_extra_segments_witness :
  5 < length (segments "a.b.c.d.e.f.g")
  /\ nested_json_value
       (JDict [("a", JDict [("b", JDict [("c", JDict [("d",
          JDict [("e", JStr "depth five")])])])])])
       "a.b.c.d.e.f.g" ∅
     = (Ok (JStr "depth five"), ∅).
Proof.
  assert (Hlen : 5 < length (segments "a.b.c.d.e.f.g")) by (vm_compute; lia).
  split; [exact Hlen|].
  destruct (nested_json_value_ignores_extra_segments
              (JDict [("a", JDict [("b", JDict [("c", JDict [("d",
                 JDict [("e", JStr "depth five")])])])])])
              "a.b.c.d.e.f.g" ∅ Hlen)
    as (k0 & k1 & k2 & k3 & k4 & extra & Hseg & _ & Heq).
  rewrite Heq. vm_compute in Hseg.
  injection Hseg as <- <- <- <- <- _. reflexivity.
Defined.

(** ** Ordered dictionaries *)

Section OrderedDict.

Implicit Types (d : odict) (k : string) (v : json).

Lemma od_get_set_same d k v : od_get (od_set d k v) k = Some v.
Proof.
  induction d as [|[k' v'] d IH]; simpl.
  - now rewrite String.eqb_refl.
  - destruct (String.eqb k' k) eqn:E; simpl; rewrite E; auto.
Qed.

Lemma od_get_set_other d k k' v :
  k <> k' -> od_get (od_set d k v) k' = od_get d k'.
Proof.
  intros Hne. induction d as [|[k0 v0] d IH]; simpl.
  - destruct (String.eqb_spec k k'); [contradiction | reflexivity].
  - destruct (String.eqb_spec k0 k) as [->|Hk]; simpl.
    + destruct (String.eqb_spec k k'); [contradiction | reflexivity].
    + now rewrite IH.
Qed.

Lemma od_get_absent d k : od_get d k = None <-> ~ In k (od_keys d).
Proof.
  induction d as [|[k' v'] d IH]; simpl; [tauto|].
  destruct (String.eqb_spec k' k) as [->|Hk].
  - split; [discriminate | intros H; exfalso; apply H; now left].
  - rewrite IH. split; [intros H [E|E]; auto | tauto].
Qed.

Lemma od_mem_keys d k : od_mem d k = true <-> In k (od_keys d).
Proof.
  unfold od_mem. pose proof (od_get_absent d k) as H.
  destruct (od_get d k); split; intros H1; try reflexivity;
    try discriminate.
  - destruct (in_dec string_dec k (od_keys d)) as [Hin|Hout]; [exact Hin|].
    apply H in Hout. discriminate.
  - exfalso. now apply (proj1 H).
Qed.

Lemma od_set_fresh d k v : ~ In k (od_keys d) -> od_set d k v = d ++ [(k, v)].
Proof.
  induction d as [|[k' v'] d IH]; simpl; [reflexivity|].
  intros Hout. destruct (String.eqb_spec k' k) as [->|Hk].
  - exfalso. apply Hout. now left.
  - rewrite IH; [reflexivity | tauto].
Qed.

Lemma od_keys_app d1 d2 : od_keys (d1 ++ d2) = od_keys d1 ++ od_keys d2.
Proof. apply map_app. Qed.

Lemma od_keys_set d k v : forall k', In k' (od_keys (od_set d k v)) <->
                                k' = k \/ In k' (od_keys d).
Proof.
  induction d as [|[k0 v0] d IH]; simpl; intros k'.
  - split; [intros [E|[]]; auto | intros [E|[]]; auto].
  - destruct (String.eqb_spec k0 k) as [->|Hk]; simpl.
    + intuition (subst; auto).
    + rewrite IH. intuition (subst; auto).
Qed.

(** A lookup at a key of a well-formed dictionary finds the entry that
    carries it. *)
Lemma od_get_middle (before after : odict) k v :
  ~ In k (od_keys before) ->
  od_get (before ++ (k, v) :: after) k = Some v.
Proof.
  induction before as [|[k' v'] before IH]; simpl; intros Hout.
  - now rewrite String.eqb_refl.
  - destruct (String.eqb_spec k' k) as [->|Hk]; [tauto|].
    apply IH. tauto.
Qed.

(** Assigning pairwise distinct fresh keys in order appends them. *)
Lemma fold_assign_fresh {A} (key : A -> string) (val : A -> json)
    (l : list A) :
  forall acc,
    List.NoDup (map key l) ->
    (forall a, In a l -> ~ In (key a) (od_keys acc)) ->
    fold_left (fun r a => od_set r (key a) (val a)) l acc
    = acc ++ map (fun a => (key a, val a)) l.
Proof.
  induction l as [|a l IH]; simpl; intros acc Hnd Hfresh.
  - now rewrite app_nil_r.
  - apply NoDup_cons_iff in Hnd as [Ha Hnd].
    rewrite od_set_fresh by (apply Hfresh; now left).
    rewrite IH; [now rewrite <- app_assoc | exact Hnd |].
    intros b Hb. rewrite od_keys_app, in_app_iff. simpl.
    intros [Hin|[E|[]]].
    + apply (Hfresh b); [now right | exact Hin].
    + apply Ha. rewrite E. now apply in_map.
Qed.

Lemma od_update_fresh (acc c : odict) :
  od_wf c ->
  (forall k, In k (od_keys c) -> ~ In k (od_keys acc)) ->
  od_update acc c = acc ++ c.
Proof.
  intros Hwf Hfresh. unfold od_update.
  rewrite (fold_assign_fresh fst snd c acc Hwf).
  - f_equal. rewrite <- (map_id c) at 2. apply map_ext. now intros [k v].
  - intros a Ha. apply Hfresh. now apply in_map.
Qed.

End OrderedDict.

(** ** More on ordered dictionaries *)

Section OrderedDictMore.

Implicit Types (d c : odict) (k : string) (v : json).

Lemma od_set_same_value d k v : od_get d k = Some v -> od_set d k v = d.
Proof.
  induction d as [|[k' v'] d IH]; simpl; [discriminate|].
  destruct (String.eqb k' k); intros H.
  - now injection H as ->.
  - now rewrite IH.
Qed.

Lemma od_keys_od_set d k v :
  od_keys (od_set d k v)
  = if od_mem d k then od_keys d else od_keys d ++ [k].
Proof.
  unfold od_mem. induction d as [|[k' v'] d IH]; simpl; [reflexivity|].
  destruct (String.eqb k' k); simpl; [reflexivity|].
  rewrite IH. now destruct (od_get d k).
Qed.

Lemma od_mem_false d k : od_mem d k = false <-> ~ In k (od_keys d).
Proof.
  rewrite <- od_get_absent. unfold od_mem.
  destruct (od_get d k); split; congruence.
Qed.

Lemma od_wf_set d k v : od_wf d -> od_wf (od_set d k v).
Proof.
  unfold od_wf. intros Hwf. rewrite od_keys_od_set.
  destruct (od_mem d k) eqn:E; [exact Hwf|].
  apply od_mem_false in E.
  apply List.NoDup_app; [exact Hwf | repeat constructor; intros [] |].
  intros x Hx [<-|[]]. contradiction.
Qed.

Lemma od_wf_update d c : od_wf d -> od_wf (od_update d c).
Proof.
  unfold od_update. revert d.
  induction c as [|[k v] c IH]; intros d Hwf; simpl; [exact Hwf|].
  apply IH. now apply od_wf_set.
Qed.

Lemma od_get_update d c k :
  od_wf c ->
  od_get (od_update d c) k
  = match od_get c k with
    | Some v => Some v
    | None => od_get d k
    end.
Proof.
  unfold od_update, od_wf. revert d.
  induction c as [|[k0 v0] c IH]; intros d Hwf; simpl; [reflexivity|].
  simpl in Hwf. apply NoDup_cons_iff in Hwf as [Hk0 Hwf].
  rewrite (IH _ Hwf).
  destruct (String.eqb_spec k0 k) as [->|Hne].
  - apply od_get_absent in Hk0. rewrite Hk0. apply od_get_set_same.
  - now rewrite od_get_set_other.
Qed.

Lemma od_keys_update d c :
  od_wf c ->
  od_keys (od_update d c)
  = od_keys d ++ List.filter (fun k => negb (od_mem d k)) (od_keys c).
Proof.
  unfold od_update, od_wf. revert d.
  induction c as [|[k0 v0] c IH]; intros d Hwf; simpl.
  - now rewrite app_nil_r.
  - simpl in Hwf. apply NoDup_cons_iff in Hwf as [Hk0 Hwf].
    rewrite (IH _ Hwf), od_keys_od_set.
    assert (Hsame : List.filter (fun k => negb (od_mem (od_set d k0 v0) k))
                      (od_keys c)
                    = List.filter (fun k => negb (od_mem d k)) (od_keys c)).
    { apply filter_ext_in. intros k Hk. unfold od_mem.
      rewrite od_get_set_other; [reflexivity|]. intros ->. contradiction. }
    rewrite Hsame.
    destruct (od_mem d k0); simpl; [reflexivity|].
    now rewrite <- app_assoc.
Qed.

Lemma od_get_In d k v : od_wf d -> In (k, v) d -> od_get d k = Some v.
Proof.
  unfold od_wf. induction d as [|[k' v'] d IH]; simpl; [intros _ []|].
  intros Hwf Hin. simpl in Hwf. apply NoDup_cons_iff in Hwf as [Hk' Hwf].
  destruct Hin as [[= -> ->]|Hin]; [now rewrite String.eqb_refl|].
  destruct (String.eqb_spec k' k) as [->|Hne]; [|now apply IH].
  exfalso. apply Hk'. change k with (fst (k, v)). now apply in_map.
Qed.

Lemma od_get_app d1 d2 k :
  od_get (d1 ++ d2) k
  = match od_get d1 k with
    | Some v => Some v
    | None => od_get d2 k
    end.
Proof.
  induction d1 as [|[k' v'] d1 IH]; simpl; [reflexivity|].
  now destruct (String.eqb k' k).
Qed.

(** Two well-formed dictionaries with the same keys in the same order and
    the same value under every key are the same dictionary. *)
Lemma od_ext d1 d2 :
  od_wf d1 -> od_wf d2 ->
  od_keys d1 = od_keys d2 ->
  (forall k, od_get d1 k = od_get d2 k) ->
  d1 = d2.
Proof.
  unfold od_wf. revert d2.
  induction d1 as [|[k1 v1] d1 IH]; intros [|[k2 v2] d2] Hwf1 Hwf2 Hkeys Hget;
    try discriminate; [reflexivity|].
  simpl in Hkeys, Hwf1, Hwf2. injection Hkeys as -> Hkeys.
  apply NoDup_cons_iff in Hwf1 as [Hk1 Hwf1].
  apply NoDup_cons_iff in Hwf2 as [Hk2 Hwf2].
  pose proof (Hget k2) as Hv. simpl in Hv. rewrite String.eqb_refl in Hv.
  injection Hv as ->. f_equal.
  apply IH; auto. intros k.
  destruct (String.eqb_spec k2 k) as [<-|Hne].
  - apply od_get_absent in Hk1, Hk2. congruence.
  - specialize (Hget k). simpl in Hget.
    destruct (String.eqb_spec k2 k); [contradiction | exact Hget].
Qed.

Lemma od_wf_filter (p : string * json -> bool) d :
  od_wf d -> od_wf (List.filter p d).
Proof.
  unfold od_wf. induction d as [|kv d IH]; simpl; [auto|].
  intros Hwf. simpl in Hwf. apply NoDup_cons_iff in Hwf as [Hk Hwf].
  destruct (p kv); simpl; [|now apply IH].
  apply NoDup_cons_iff. split; [|now apply IH].
  intros Hin. apply Hk. unfold od_keys in Hin |- *.
  apply in_map_iff in Hin as (kv' & E & Hin). apply filter_In in Hin.
  apply in_map_iff. exists kv'. tauto.
Qed.

Lemma od_keys_filter_key (p : string -> bool) d :
  od_keys (List.filter (fun kv => p (fst kv)) d)
  = List.filter p (od_keys d).
Proof.
  induction d as [|[k v] d IH]; simpl; [reflexivity|].
  destruct (p k); simpl; now rewrite IH.
Qed.

End OrderedDictMore.

(** ** The accumulator discipline *)

Section Additive.

Lemma additive_ret {A} (a : A) : additive (ret a).
Proof. exists (Ok a), ∅. intros st. unfold ret. now rewrite (left_id_L ∅ (∪)). Qed.

Lemma additive_lift {A} (r : res A) : additive (lift r).
Proof. exists r, ∅. intros st. unfold lift. now rewrite (left_id_L ∅ (∪)). Qed.

Lemma additive_bind {A B} (m : M A) (k : A -> M B) :
  additive m -> (forall a, additive (k a)) -> additive (bind m k).
Proof.
  intros ([a|e] & add1 & Hm) Hk.
  - destruct (Hk a) as (r & add2 & Hka).
    exists r, (add2 ∪ add1). intros st. unfold bind.
    rewrite Hm, Hka. now rewrite (assoc_L (∪)).
  - exists (Raise e), add1. intros st. unfold bind. now rewrite Hm.
Qed.

Lemma additive_for_each {A S} (body : S -> A -> M S) (l : list A) :
  (forall s a, additive (body s a)) -> forall s, additive (for_each body l s).
Proof.
  intros Hbody. induction l as [|a l IH]; intros s; simpl.
  - apply additive_ret.
  - apply additive_bind; [apply Hbody | exact IH].
Qed.

Lemma additive_nested_json_value (v : json) (path : string) :
  additive (nested_json_value v path).
Proof.
  destruct (resolve_spec v (firstn 5 (segments path))) as [x|] eqn:E.
  - exists (Ok x), ∅. intros st.
    rewrite nested_json_value_lookup. unfold lookup_outcome. rewrite E.
    now rewrite (left_id_L ∅ (∪)).
  - exists (Ok JNull), {[ path ]}. intros st.
    rewrite nested_json_value_lookup. unfold lookup_outcome. now rewrite E.
Qed.

Lemma additive_field_step jsondata constants values fldname :
  additive (field_step jsondata constants values fldname).
Proof.
  unfold field_step.
  destruct (constants_given constants && od_mem (constants_dict constants) fldname).
  - apply additive_bind; [apply additive_lift | intros; apply additive_ret].
  - apply additive_bind; [apply additive_nested_json_value|].
    intros v. destruct (String.eqb (Str.lower fldname) "private").
    + apply additive_bind; [apply additive_lift | intros; apply additive_ret].
    + apply additive_ret.
Qed.

Lemma additive_special_step mode jsondata values fldname :
  additive (special_step mode jsondata values fldname).
Proof.
  unfold special_step.
  destruct (_ || _); [|apply additive_ret].
  apply additive_bind; [apply additive_lift|].
  intros [| | | | | |d]; try apply additive_ret.
  destruct (String.eqb mode "nourls"); apply additive_ret.
Qed.

Lemma additive_data_fields entity jsondata fields constants :
  additive (data_fields entity jsondata fields constants).
Proof.
  unfold data_fields.
  apply additive_bind; [apply additive_lift|].
  intros mode. destruct (str_in mode _).
  - apply additive_for_each. intros; apply additive_special_step.
  - apply additive_for_each. intros; apply additive_field_step.
Qed.

Lemma additive_github_data entity fields constants all_fields :
  additive (github_data entity fields constants all_fields).
Proof.
  unfold github_data. apply additive_for_each. intros retval item.
  apply additive_bind; [apply additive_data_fields|].
  intros; apply additive_ret.
Qed.

(** What the discipline gives: the result does not depend on the
    accumulator, and the accumulator only grows. *)
Lemma additive_result {A} (m : M A) :
  additive m -> forall st1 st2, fst (m st1) = fst (m st2).
Proof. intros (r & added & H) st1 st2. now rewrite !H. Qed.

Lemma additive_grows {A} (m : M A) :
  additive m -> forall st, st ⊆ snd (m st).
Proof. intros (r & added & H) st. rewrite H. simpl. set_solver. Qed.

End Additive.

(** ** The projector on an actual list of field names *)

Lemma resolved_lookup (jsondata : odict) (path : string) :
  resolved jsondata path
  = match resolve_spec (JDict jsondata) (firstn 5 (segments path)) with
    | Some v => v
    | None => JNull
    end.
Proof.
  unfold resolved. rewrite nested_json_value_lookup. unfold lookup_outcome.
  now destruct (resolve_spec _ _).
Qed.

Lemma nested_json_value_resolved (jsondata : odict) (path : string)
    (st : unknown_set) :
  nested_json_value (JDict jsondata) path st
  = (Ok (resolved jsondata path),
     if resolves jsondata path then st else {[ path ]} ∪ st).
Proof.
  rewrite resolved_lookup, nested_json_value_lookup.
  unfold lookup_outcome, resolves. now destruct (resolve_spec _ _).
Qed.

Lemma data_fields_explicit entity jsondata fields constants :
  explicit_mode fields = true ->
  data_fields entity jsondata (Some fields) constants
  = for_each (field_step jsondata constants) fields [].
Proof.
  destruct fields as [|f0 fs]; [discriminate|].
  unfold explicit_mode. intros H. apply negb_true_iff in H.
  unfold data_fields, bind, lift, list_index. cbn [nth_error].
  now rewrite H.
Qed.

Lemma field_step_plain jsondata constants values fldname st :
  plain_field constants fldname = true ->
  field_step jsondata constants values fldname st
  = (Ok (assign_resolved jsondata values fldname),
     if resolves jsondata fldname then st else {[ fldname ]} ∪ st).
Proof.
  unfold plain_field, is_constant, is_private. intros H.
  apply andb_true_iff in H as [Hc Hp].
  apply negb_true_iff in Hc, Hp.
  unfold field_step. rewrite Hc. unfold bind.
  rewrite nested_json_value_resolved, Hp. reflexivity.
Qed.

Lemma for_each_plain jsondata constants fields :
  forallb (plain_field constants) fields = true ->
  forall values st,
    for_each (field_step jsondata constants) fields values st
    = (Ok (fold_left (assign_resolved jsondata) fields values),
       unknown_in jsondata fields ∪ st).
Proof.
  induction fields as [|f fs IH]; simpl; intros Hplain values st.
  - unfold ret, unknown_in. simpl. now rewrite (left_id_L ∅ (∪)).
  - apply andb_true_iff in Hplain as [Hf Hfs].
    unfold bind. rewrite (field_step_plain _ _ _ _ _ Hf), (IH Hfs).
    f_equal. unfold unknown_in. simpl.
    destruct (resolves jsondata f); simpl; [reflexivity|].
    rewrite (assoc_L (∪)). f_equal. apply (comm_L (∪)).
Qed.

Lemma bind_Ok_inv {A B} (m : M A) (k : A -> M B) st b st' :
  bind m k st = (Ok b, st') ->
  exists a st1, m st = (Ok a, st1) /\ k a st1 = (Ok b, st').
Proof.
  unfold bind. destruct (m st) as [[a|e] st1]; [|discriminate].
  intros H. now exists a, st1.
Qed.

Lemma for_each_cons {A S} (body : S -> A -> M S) (a : A) (l : list A)
    (s : S) (st : unknown_set) :
  for_each body (a :: l) s st
  = match body s a st with
    | (Ok s', st') => for_each body l s' st'
    | (Raise e, st') => (Raise e, st')
    end.
Proof. reflexivity. Qed.

Lemma record_body entity fields constants (retval : list odict)
    (item : odict) (st : unknown_set) :
  bind (data_fields entity item fields constants)
    (fun record => ret (retval ++ [record])) st
  = match data_fields entity item fields constants st with
    | (Ok record, st') => (Ok (retval ++ [record]), st')
    | (Raise e, st') => (Raise e, st')
    end.
Proof. reflexivity. Qed.

(** Field names and the characters the projector looks at. *)
Section FieldNames.

Lemma lower_ascii_dot (a : ascii) :
  Ascii.eqb (Str.lower_ascii a) "." = Ascii.eqb a ".".
Proof. destruct a as [[] [] [] [] [] [] [] []]; reflexivity. Qed.

Lemma lower_ascii_underscore (a : ascii) :
  Ascii.eqb (Str.lower_ascii a) "_" = Ascii.eqb a "_".
Proof. destruct a as [[] [] [] [] [] [] [] []]; reflexivity. Qed.

Lemma count_lower_dot (s : string) :
  Str.count (Str.lower s) "." = Str.count s ".".
Proof.
  induction s as [|a s IH]; simpl; [reflexivity|].
  now rewrite lower_ascii_dot, IH.
Qed.

Lemma count_lower_underscore (s : string) :
  Str.count (Str.lower s) "_" = Str.count s "_".
Proof.
  induction s as [|a s IH]; simpl; [reflexivity|].
  now rewrite lower_ascii_underscore, IH.
Qed.

Lemma private_no_dot (f : string) :
  is_private f = true -> Str.count f "." = 0.
Proof.
  unfold is_private. intros H. apply String.eqb_eq in H.
  rewrite <- count_lower_dot, H. reflexivity.
Qed.

Lemma private_no_underscore (f : string) :
  is_private f = true -> Str.count f "_" = 0.
Proof.
  unfold is_private. intros H. apply String.eqb_eq in H.
  rewrite <- count_lower_underscore, H. reflexivity.
Qed.

Lemma output_key_no_dot (s : string) :
  Str.count s "." = 0 -> output_key s = s.
Proof.
  unfold output_key. induction s as [|a s IH]; simpl; [reflexivity|].
  destruct (Ascii.eqb a "."); [discriminate|].
  simpl. intros H. now rewrite IH.
Qed.

(** An output key without an underscore is the key of one path only:
    itself. *)
Lemma output_key_no_underscore (g : string) :
  Str.count (output_key g) "_" = 0 -> output_key g = g.
Proof.
  unfold output_key. induction g as [|a g IH]; simpl; [reflexivity|].
  destruct (Ascii.eqb a ".") eqn:E; simpl.
  - discriminate.
  - destruct (Ascii.eqb a "_"); [discriminate|].
    simpl. intros H. now rewrite IH.
Qed.

Lemma segments_no_dot (s : string) :
  Str.count s "." = 0 -> segments s = [s].
Proof. apply split_without_separator. Qed.

Lemma private_not_shorthand (f : string) :
  is_private f = true -> explicit_mode [f] = true.
Proof.
  unfold is_private, explicit_mode, str_in. simpl. intros H.
  destruct (String.eqb_spec f "*") as [->|_]; [discriminate H|].
  destruct (String.eqb_spec f "urls") as [->|_]; [discriminate H|].
  destruct (String.eqb_spec f "nourls") as [->|_]; [discriminate H|].
  reflexivity.
Qed.

End FieldNames.

(** The three shapes of one iteration over a requested field. *)
Section FieldStep.

Variables (jsondata : odict) (constants : option odict).

Lemma is_constant_get (f : string) (c : json) :
  od_get (constants_dict constants) f = Some c ->
  is_constant constants f = true.
Proof.
  unfold is_constant, od_mem. intros H. rewrite H.
  destruct constants as [[|kv d]|]; simpl in *; try discriminate.
  reflexivity.
Qed.

Lemma field_step_constant values f c st :
  od_get (constants_dict constants) f = Some c ->
  field_step jsondata constants values f st = (Ok (od_set values f c), st).
Proof.
  intros H. pose proof (is_constant_get f c H) as Hc.
  unfold is_constant in Hc. unfold field_step. rewrite Hc.
  unfold bind, lift, getitem. rewrite H. reflexivity.
Qed.

Lemma field_step_private_present values f p st :
  is_constant constants f = false ->
  is_private f = true ->
  od_get jsondata f = Some p ->
  field_step jsondata constants values f st
  = (Ok (od_set (od_set values f p) f
           (JStr (if truthy p then "private" else "public"))), st).
Proof.
  unfold is_constant. intros Hc Hp Hget.
  pose proof (private_no_dot f Hp) as Hdot.
  unfold field_step. rewrite Hc. unfold bind.
  rewrite nested_json_value_lookup, (segments_no_dot f Hdot).
  unfold lookup_outcome. cbn [firstn resolve_spec]. rewrite Hget.
  unfold is_private in Hp. rewrite Hp.
  fold (output_key f). rewrite (output_key_no_dot f Hdot).
  unfold lift, getitem. rewrite Hget. reflexivity.
Qed.

(** The defect behind C2: the post-processing of a field named 'private'
    subscripts the payload outside the resolver's [try]. *)
Lemma field_step_private_absent values f st :
  is_constant constants f = false ->
  is_private f = true ->
  od_get jsondata f = None ->
  field_step jsondata constants values f st
  = (Raise (KeyError f), {[ f ]} ∪ st).
Proof.
  unfold is_constant. intros Hc Hp Hget.
  pose proof (private_no_dot f Hp) as Hdot.
  unfold field_step. rewrite Hc. unfold bind.
  rewrite nested_json_value_lookup, (segments_no_dot f Hdot).
  unfold lookup_outcome. cbn [firstn resolve_spec]. rewrite Hget.
  unfold is_private in Hp. rewrite Hp.
  unfold lift, getitem. rewrite Hget. reflexivity.
Qed.

(** One iteration for [g] assigns no key other than [g] and its output
    key. *)
Lemma field_step_writes values g st values' st' k :
  field_step jsondata constants values g st = (Ok values', st') ->
  k <> g -> k <> output_key g ->
  od_get values' k = od_get values k.
Proof.
  unfold field_step. intros H Hg Hk.
  destruct (constants_given constants && od_mem (constants_dict constants) g).
  - apply bind_Ok_inv in H as (c & st1 & _ & H).
    injection H as <- _. apply od_get_set_other. congruence.
  - apply bind_Ok_inv in H as (v & st1 & _ & H).
    destruct (String.eqb (Str.lower g) "private").
    + apply bind_Ok_inv in H as (p & st2 & _ & H).
      injection H as <- _.
      rewrite od_get_set_other by congruence.
      apply od_get_set_other. unfold output_key in Hk. congruence.
    + injection H as <- _.
      apply od_get_set_other. unfold output_key in Hk. congruence.
Qed.

(** If every successful iteration for [f] leaves [x] under the key [f],
    and no other requested path has [f] as its output key, the record
    holds [x] under [f]. *)
Lemma for_each_field_final (f : string) (x : json) (fields : list string) :
  (forall values st values' st',
      field_step jsondata constants values f st = (Ok values', st') ->
      od_get values' f = Some x) ->
  (forall g, In g fields -> output_key g = f -> g = f) ->
  forall values st r st',
    In f fields \/ od_get values f = Some x ->
    for_each (field_step jsondata constants) fields values st = (Ok r, st') ->
    od_get r f = Some x.
Proof.
  intros Hf. induction fields as [|g rest IH]; simpl;
    intros Hkey values st r st' Hstart Hrun.
  - injection Hrun as <- _. destruct Hstart as [[]|H]; exact H.
  - apply bind_Ok_inv in Hrun as (values1 & st1 & Hstep & Hrest).
    apply (IH (fun g' Hg' => Hkey g' (or_intror Hg')) values1 st1 r st');
      [|exact Hrest].
    destruct (string_dec g f) as [->|Hne].
    + right. exact (Hf _ _ _ _ Hstep).
    + destruct Hstart as [[E|Hin]|Hval]; [contradiction | now left |].
      right. rewrite <- Hval.
      apply (field_step_writes _ _ _ _ _ _ Hstep); [congruence|].
      intros E. apply Hne. apply Hkey; [now left | now symmetry].
Qed.

End FieldStep.

Lemma is_constant_true_get constants f :
  is_constant constants f = true ->
  exists c, od_get (constants_dict constants) f = Some c.
Proof.
  unfold is_constant, od_mem. intros H. apply andb_true_iff in H as [_ H].
  destruct (od_get (constants_dict constants) f) as [c|]; [|discriminate].
  now exists c.
Qed.

(** One iteration either assigns and goes on, or is for a field the
    projector fails on, and raises [KeyError] with that name. *)
Lemma field_step_outcome jsondata constants values f st :
  if fails_on jsondata constants f
  then field_step jsondata constants values f st
       = (Raise (KeyError f), {[ f ]} ∪ st)
  else exists values' st',
      field_step jsondata constants values f st = (Ok values', st').
Proof.
  unfold fails_on.
  destruct (is_constant constants f) eqn:Hc.
  - rewrite andb_false_r. simpl.
    destruct (is_constant_true_get _ _ Hc) as (c & Hget).
    rewrite (field_step_constant jsondata constants values f c st Hget).
    eauto.
  - destruct (is_private f) eqn:Hp; simpl.
    + unfold od_mem. destruct (od_get jsondata f) as [p|] eqn:Hget; simpl.
      * rewrite (field_step_private_present _ _ _ _ _ _ Hc Hp Hget). eauto.
      * now apply field_step_private_absent.
    + rewrite field_step_plain by (unfold plain_field; now rewrite Hc, Hp).
      eauto.
Qed.

Lemma for_each_field_outcome jsondata constants fields :
  forall values st,
    match List.find (fails_on jsondata constants) fields with
    | Some f =>
        exists st', for_each (field_step jsondata constants) fields values st
                    = (Raise (KeyError f), st')
    | None =>
        exists record st',
          for_each (field_step jsondata constants) fields values st
          = (Ok record, st')
    end.
Proof.
  induction fields as [|g rest IH]; intros values st; simpl.
  - exists values, st. reflexivity.
  - pose proof (field_step_outcome jsondata constants values g st) as Hg.
    destruct (fails_on jsondata constants g).
    + exists ({[ g ]} ∪ st). unfold bind. now rewrite Hg.
    + destruct Hg as (values' & st1 & Hg). unfold bind. rewrite Hg.
      apply IH.
Qed.

(** What an iteration assigns when it does not raise, and what a whole
    request of field names leaves in the record. *)
Section FieldAssign.

Variables (jsondata : odict) (constants : option odict).

Lemma od_set_twice (d : odict) (k : string) (v v' : json) :
  od_set (od_set d k v) k v' = od_set d k v'.
Proof.
  induction d as [|[k0 v0] d IH]; simpl.
  - now rewrite String.eqb_refl.
  - destruct (String.eqb k0 k) eqn:E; simpl; rewrite E; [reflexivity|].
    now rewrite IH.
Qed.

Lemma resolves_top_level (f : string) :
  Str.count f "." = 0 -> resolves jsondata f = od_mem jsondata f.
Proof.
  intros H. unfold resolves, od_mem. rewrite (segments_no_dot f H).
  cbn [firstn resolve_spec]. now destruct (od_get jsondata f).
Qed.

Lemma plain_field_assign (p : string) :
  plain_field constants p = true ->
  first_assigned constants p = output_key p
  /\ assigned_value jsondata constants p = resolved jsondata p.
Proof.
  unfold plain_field, first_assigned, assigned_value. intros H.
  apply andb_true_iff in H as [Hc Hp]. apply negb_true_iff in Hc, Hp.
  now rewrite Hc, Hp.
Qed.

Lemma constant_assign (f : string) (c : json) :
  od_get (constants_dict constants) f = Some c ->
  first_assigned constants f = f
  /\ assigned_value jsondata constants f = c.
Proof.
  intros Hget. pose proof (is_constant_get constants f c Hget) as Hc.
  unfold first_assigned, assigned_value. now rewrite Hc, Hget.
Qed.

Lemma field_step_assign values f st :
  fails_on jsondata constants f = false ->
  field_step jsondata constants values f st
  = (Ok (assign_field jsondata constants values f),
     if is_constant constants f || resolves jsondata f
     then st else {[ f ]} ∪ st).
Proof.
  unfold fails_on, assign_field, first_assigned, assigned_value. intros Hok.
  destruct (is_constant constants f) eqn:Hc.
  - destruct (is_constant_true_get _ _ Hc) as (c & Hget). rewrite Hget.
    simpl. now apply field_step_constant.
  - destruct (is_private f) eqn:Hp; simpl in *.
    + unfold od_mem in Hok.
      destruct (od_get jsondata f) as [p|] eqn:Hget; [|discriminate].
      rewrite (field_step_private_present jsondata constants values f p st
                 Hc Hp Hget).
      rewrite od_set_twice, (output_key_no_dot f (private_no_dot f Hp)).
      rewrite (resolves_top_level f (private_no_dot f Hp)).
      unfold od_mem. now rewrite Hget.
    + rewrite field_step_plain by (unfold plain_field; now rewrite Hc, Hp).
      reflexivity.
Qed.

Lemma for_each_field_assign (fields : list string) :
  List.find (fails_on jsondata constants) fields = None ->
  forall values st,
    for_each (field_step jsondata constants) fields values st
    = (Ok (fold_left (assign_field jsondata constants) fields values),
       recorded_for jsondata constants fields ∪ st).
Proof.
  induction fields as [|f rest IH]; intros Hfind values st.
  - unfold recorded_for. simpl. unfold ret. now rewrite (left_id_L ∅ (∪)).
  - simpl in Hfind.
    destruct (fails_on jsondata constants f) eqn:Hf; [discriminate|].
    rewrite for_each_cons, (field_step_assign values f st Hf), (IH Hfind).
    cbn [fold_left]. f_equal. unfold recorded_for. cbn [List.filter].
    destruct (is_constant constants f || resolves jsondata f);
      cbn [negb]; [reflexivity|].
    cbn [list_to_set]. rewrite (assoc_L (∪)). f_equal. apply (comm_L (∪)).
Qed.

(** The outcome of a request of field names: the first field the
    projector fails on, or the record of the assignments. *)
Lemma for_each_field_result (fields : list string) (values : odict)
    (st : unknown_set) :
  fst (for_each (field_step jsondata constants) fields values st)
  = match List.find (fails_on jsondata constants) fields with
    | Some f => Raise (KeyError f)
    | None => Ok (fold_left (assign_field jsondata constants) fields values)
    end.
Proof.
  pose proof (for_each_field_outcome jsondata constants fields values st)
    as H.
  destruct (List.find (fails_on jsondata constants) fields) eqn:Hfind.
  - destruct H as (st' & ->). reflexivity.
  - now rewrite (for_each_field_assign fields Hfind).
Qed.

(** A key holds what was assigned to it last. *)
Lemma fold_assign_last {A} (key : A -> string) (val : A -> json) (p : A)
    (after : list A) :
  (forall g, In g after -> key g = key p -> val g = val p) ->
  forall values,
    od_get values (key p) = Some (val p) ->
    od_get (fold_left (fun r a => od_set r (key a) (val a)) after values)
      (key p)
    = Some (val p).
Proof.
  induction after as [|g rest IH]; simpl; intros H values Hv; [exact Hv|].
  apply IH; [intros g' Hg'; apply H; now right|].
  destruct (string_dec (key g) (key p)) as [E|Hne].
  - rewrite E, od_get_set_same. f_equal. apply H; [now left | exact E].
  - now rewrite od_get_set_other.
Qed.

Lemma assigned_last (before after : list string) (p : string) :
  (forall g, In g after ->
             first_assigned constants g = first_assigned constants p ->
             g = p) ->
  od_get (fold_left (assign_field jsondata constants)
            (before ++ p :: after) [])
    (first_assigned constants p)
  = Some (assigned_value jsondata constants p).
Proof.
  intros H. rewrite fold_left_app. cbn [fold_left].
  apply (fold_assign_last (first_assigned constants)
           (assigned_value jsondata constants) p after).
  - intros g Hg E. now rewrite (H g Hg E).
  - apply od_get_set_same.
Qed.

Lemma assigned_in_order (fields : list string) :
  List.NoDup (map (first_assigned constants) fields) ->
  fold_left (assign_field jsondata constants) fields []
  = map (fun g => (first_assigned constants g,
                   assigned_value jsondata constants g)) fields.
Proof.
  intros Hnd.
  apply (fold_assign_fresh (first_assigned constants)
           (assigned_value jsondata constants) fields [] Hnd).
  intros a _ [].
Qed.

(** What the record holds for a requested field, whatever else is
    requested, as long as no field requested after it is assigned the
    same key. *)
Lemma data_fields_assigned entity (before after : list string) (p : string)
    (st : unknown_set) :
  explicit_mode (before ++ p :: after) = true ->
  (forall g, In g after ->
             first_assigned constants g = first_assigned constants p ->
             g = p) ->
  match fst (data_fields entity jsondata (Some (before ++ p :: after))
               constants st) with
  | Ok record =>
      od_get record (first_assigned constants p)
      = Some (assigned_value jsondata constants p)
  | Raise e =>
      exists f, e = KeyError f /\ In f (before ++ p :: after)
                /\ fails_on jsondata constants f = true
  end.
Proof.
  intros Hmode Hlast.
  rewrite (data_fields_explicit _ _ _ _ Hmode), for_each_field_result.
  destruct (List.find (fails_on jsondata constants) (before ++ p :: after))
    as [f|] eqn:Hfind.
  - apply find_some in Hfind as [Hin Hf]. now exists f.
  - now apply assigned_last.
Qed.

End FieldAssign.

(** ** Claims about the projector on an actual list of field names *)

(** C2 (the code departs from the claim). A requested field named
    'private', in any letter case, that the item lacks does not degrade to
    a missing value: the resolver records it and returns [None], and then
    the post-processing [jsondata[fldname]] raises [KeyError], which
    nothing catches.  [data_fields] raises instead of returning a record,
    also when the item has the field under another letter case, and the
    aggregator loses the whole batch. *)
Theorem data_fields_raises_on_absent_private :
  data_fields None [("name", JStr "widgets")] (Some ["name"; "private"])
    None ∅
  = (Raise (KeyError "private"), {[ "private" ]})
  /\ data_fields None [("private", JBool true)] (Some ["Private"]) None ∅
     = (Raise (KeyError "Private"), {[ "Private" ]})
  /\ github_data None (Some ["name"; "private"]) None
       [ [("name", JStr "gadgets"); ("private", JBool false)];
         [("name", JStr "widgets")] ] ∅
     = (Raise (KeyError "private"), {[ "private" ]}).
Proof.
  split; [|split]; vm_compute; reflexivity.
Qed.

(** C3 (amended). On an actual list of field names, whatever else is
    requested, a requested path that is neither a key of the constants nor
    case-insensitively 'private' is assigned the value the resolver
    returns for it, under its output key, the path with every '.' replaced
    by '_'.  The projector goes through the requested paths in the given
    order and assigns one key for each (an ordered-dictionary assignment:
    a key assigned again keeps its position and takes the later value); it
    raises only for a requested 'private' that the item lacks (C2).  So
    the returned record holds the resolved value under the output key of
    such a path, unless a path requested after it is assigned the same
    key; and when the assigned keys are pairwise distinct the record is
    exactly the list of assignments in the given order.  In particular the
    paths owner.login, name on the payload
    {owner: {login: acme}, name: widgets} give the record
    {owner_login: acme, name: widgets} in that order. *)
Theorem data_fields_plain_paths :
  (forall jsondata constants p,
      plain_field constants p = true ->
      forall values,
        assign_field jsondata constants values p
        = od_set values (output_key p) (resolved jsondata p))
  /\ (forall entity jsondata fields constants st,
         explicit_mode fields = true ->
         fst (data_fields entity jsondata (Some fields) constants st)
         = match List.find (fails_on jsondata constants) fields with
           | Some f => Raise (KeyError f)
           | None =>
               Ok (fold_left (assign_field jsondata constants) fields [])
           end)
  /\ (forall entity jsondata before p after constants st,
         explicit_mode (before ++ p :: after) = true ->
         plain_field constants p = true ->
         (forall g, In g after ->
                    first_assigned constants g = output_key p -> g = p) ->
         match fst (data_fields entity jsondata
                      (Some (before ++ p :: after)) constants st) with
         | Ok record =>
             od_get record (output_key p) = Some (resolved jsondata p)
         | Raise e =>
             exists f, e = KeyError f /\ In f (before ++ p :: after)
                       /\ fails_on jsondata constants f = true
         end)
  /\ (forall entity jsondata fields constants st,
         explicit_mode fields = true ->
         List.find (fails_on jsondata constants) fields = None ->
         List.NoDup (map (first_assigned constants) fields) ->
         fst (data_fields entity jsondata (Some fields) constants st)
         = Ok (map (fun g => (first_assigned constants g,
                              assigned_value jsondata constants g)) fields))
  /\ fst (data_fields None
            [("owner", JDict [("login", JStr "acme")]);
             ("name", JStr "widgets")]
            (Some ["owner.login"; "name"]) None ∅)
     = Ok [("owner_login", JStr "acme"); ("name", JStr "widgets")].
Proof.
  split; [|split; [|split; [|split]]].
  - intros jsondata constants p Hplain values. unfold assign_field.
    now destruct (plain_field_assign jsondata constants p Hplain) as [-> ->].
  - intros entity jsondata fields constants st Hmode.
    rewrite (data_fields_explicit _ _ _ _ Hmode).
    apply for_each_field_result.
  - intros entity jsondata before p after constants st Hmode Hplain Hlast.
    destruct (plain_field_assign jsondata constants p Hplain) as [Hkey Hval].
    assert (Hafter : forall g, In g after ->
                       first_assigned constants g = first_assigned constants p ->
                       g = p).
    { intros g Hg E. apply (Hlast g Hg). now rewrite <- Hkey. }
    pose proof (data_fields_assigned jsondata constants entity before after
                  p st Hmode Hafter) as H.
    rewrite Hkey, Hval in H. exact H.
  - intros entity jsondata fields constants st Hmode Hfind Hnd.
    rewrite (data_fields_explicit _ _ _ _ Hmode), for_each_field_result, Hfind.
    f_equal. now apply assigned_in_order.
  - reflexivity.
Qed.

Lemma data_fields_plain_paths_witness :
  od_get [("name", JStr "widgets"); ("owner_login", JStr "acme");
          ("private", JStr "public"); ("fork", JNull)] "owner_login"
  = Some (JStr "acme")
  /\ fst (data_fields (Some "collab")
            [("login", JStr "octocat"); ("id", JInt 1)] None
            (Some [("owner", JStr "acme"); ("repo", JStr "widgets")]) ∅)
     = Ok [("login", JStr "octocat"); ("owner", JStr "acme");
           ("repo", JStr "widgets"); ("id", JInt 1)].
Proof.
  split.
  - exact (proj1 (proj2 (proj2 data_fields_plain_paths)) None
             [("name", JStr "widgets");
              ("owner", JDict [("login", JStr "acme")]);
              ("private", JBool false)]
             ["name"] "owner.login" ["private"; "fork"] None ∅
             eq_refl eq_refl
             ltac:(intros g [<-|[<-|[]]] E; vm_compute in E; discriminate E)).
  - refine (proj1 (proj2 (proj2 (proj2 data_fields_plain_paths)))
              None [("login", JStr "octocat"); ("id", JInt 1)]
              ["login"; "owner"; "repo"; "id"]
              (Some [("owner", JStr "acme"); ("repo", JStr "widgets")]) ∅
              eq_refl eq_refl _).
    vm_compute. repeat constructor; simpl; intuition discriminate.
Defined.

(** Where C3 as first worded fails: a requested 'private' that the item
    has is emitted as a string, not with the boolean the resolver returns;
    a requested path that is a key of the constants is emitted with the
    constant, not with the value the resolver finds in the item; and a
    path requested later under the same output key replaces the value of
    the earlier one. *)
Lemma data_fields_not_always_resolved_value :
  (fst (data_fields None [("private", JBool true)] (Some ["private"]) None ∅)
   = Ok [("private", JStr "private")]
   /\ fst (data_fields None [("private", JBool true)] (Some ["private"])
             None ∅)
      <> Ok (map (fun p => (output_key p,
                            resolved [("private", JBool true)] p))
               ["private"]))
  /\ (fst (data_fields None [("name", JStr "widgets")] (Some ["name"])
             (Some [("name", JStr "zzz")]) ∅)
      = Ok [("name", JStr "zzz")]
      /\ fst (data_fields None [("name", JStr "widgets")] (Some ["name"])
                (Some [("name", JStr "zzz")]) ∅)
         <> Ok (map (fun p => (output_key p,
                               resolved [("name", JStr "widgets")] p))
                  ["name"]))
  /\ (fst (data_fields None
             [("a", JDict [("b", JInt 2)]); ("a_b", JInt 1)]
             (Some ["a.b"; "a_b"]) None ∅)
      = Ok [("a_b", JInt 1)]
      /\ resolved [("a", JDict [("b", JInt 2)]); ("a_b", JInt 1)] "a.b"
         = JInt 2).
Proof.
  repeat split; try reflexivity; intros H; vm_compute in H; discriminate H.
Qed.

(** C6 (amended). On an actual list of field names, a requested field that
    is a key of the constants is assigned the constant's value under
    exactly that name, whatever the payload is: the iteration for it
    assigns the constant and neither reads the payload nor touches the
    unknown-field set; requested alone it yields the one-entry record; and
    in any request the returned record holds the constant under that key,
    unless a field requested after it is assigned the same key, which only
    a dotted path that is not a constant and has that key as its output
    key can be.  The projector raises only for a requested 'private' that
    the item lacks (C2). *)
Theorem constant_wins (constants : option odict) (f : string) (c : json) :
  od_get (constants_dict constants) f = Some c ->
  (forall jsondata values st,
      field_step jsondata constants values f st = (Ok (od_set values f c), st)
      /\ od_get (od_set values f c) f = Some c)
  /\ (forall entity jsondata st,
         explicit_mode [f] = true ->
         data_fields entity jsondata (Some [f]) constants st
         = (Ok [(f, c)], st))
  /\ (forall entity jsondata before after st,
         explicit_mode (before ++ f :: after) = true ->
         (forall g, In g after ->
                    is_constant constants g = false -> output_key g <> f) ->
         match fst (data_fields entity jsondata
                      (Some (before ++ f :: after)) constants st) with
         | Ok record => od_get record f = Some c
         | Raise e =>
             exists g, e = KeyError g /\ In g (before ++ f :: after)
                       /\ fails_on jsondata constants g = true
         end).
Proof.
  intros Hc. split; [|split].
  - intros jsondata values st. split.
    + now apply field_step_constant.
    + apply od_get_set_same.
  - intros entity jsondata st Hmode.
    rewrite (data_fields_explicit _ _ _ _ Hmode). simpl. unfold bind.
    now rewrite (field_step_constant jsondata constants [] f c st Hc).
  - intros entity jsondata before after st Hmode Hlast.
    destruct (constant_assign jsondata constants f c Hc) as [Hkey Hval].
    assert (Hafter : forall g, In g after ->
                       first_assigned constants g = first_assigned constants f ->
                       g = f).
    { intros g Hg E. rewrite Hkey in E. unfold first_assigned in E.
      destruct (is_constant constants g) eqn:Hg'; [exact E|].
      exfalso. now apply (Hlast g Hg Hg'). }
    pose proof (data_fields_assigned jsondata constants entity before after
                  f st Hmode Hafter) as H.
    rewrite Hkey, Hval in H. exact H.
Qed.

Lemma constant_wins_witness :
  data_fields (Some "repo")
    [("name", JStr "widgets"); ("org", JStr "from the payload")]
    (Some ["org"]) (Some [("org", JStr "contoso")]) ∅
  = (Ok [("org", JStr "contoso")], ∅)
  /\ od_get [("a_b", JInt 1); ("name", JStr "widgets")] "a_b"
     = Some (JInt 1).
Proof.
  split.
  - apply (proj1 (proj2 (constant_wins (Some [("org", JStr "contoso")]) "org"
                           (JStr "contoso") eq_refl))).
    reflexivity.
  - exact (proj2 (proj2 (constant_wins (Some [("a_b", JInt 1)]) "a_b"
                           (JInt 1) eq_refl))
             None [("a", JDict [("b", JInt 2)]); ("name", JStr "widgets")]
             ["a.b"] ["name"] ∅ eq_refl
             ltac:(intros g [<-|[]] _ E; vm_compute in E; discriminate E)).
Defined.

(** Where C6 as first worded fails: a dotted path requested after the
    constant, with the constant's name as its output key, is assigned that
    key afterwards, and the record holds the payload's value, not the
    constant.  Requested before the constant it does no harm. *)
Lemma constant_replaced_by_later_path :
  (data_fields None [("a", JDict [("b", JInt 2)])] (Some ["a_b"; "a.b"])
     (Some [("a_b", JInt 1)]) ∅
   = (Ok [("a_b", JInt 2)], ∅)
   /\ od_get (constants_dict (Some [("a_b", JInt 1)])) "a_b" = Some (JInt 1)
   /\ od_get [("a_b", JInt 2)] "a_b" <> Some (JInt 1))
  /\ data_fields None [("a", JDict [("b", JInt 2)])] (Some ["a.b"; "a_b"])
       (Some [("a_b", JInt 1)]) ∅
     = (Ok [("a_b", JInt 1)], ∅).
Proof.
  repeat split; try reflexivity. intros H. vm_compute in H. discriminate H.
Qed.

(** C7. When the item has a top-level field whose name is 'private' in any
    letter case, with a boolean value, projecting that field (which is not
    shadowed by a constant of the same name) yields the string 'private'
    for true and 'public' for false, in place of the boolean the resolver
    returns: requested alone it is the whole record, and in any request
    that returns, the record holds the string under that field name. *)
Theorem private_flag_projection
    (jsondata : odict) (constants : option odict) (f : string) (b : bool) :
  is_private f = true ->
  od_get jsondata f = Some (JBool b) ->
  is_constant constants f = false ->
  resolved jsondata f = JBool b
  /\ (forall entity st,
         data_fields entity jsondata (Some [f]) constants st
         = (Ok [(f, JStr (if b then "private" else "public"))], st))
  /\ (forall entity fields st r st',
         explicit_mode fields = true ->
         In f fields ->
         data_fields entity jsondata (Some fields) constants st = (Ok r, st') ->
         od_get r f = Some (JStr (if b then "private" else "public"))).
Proof.
  intros Hp Hget Hc. split; [|split].
  - rewrite resolved_lookup, (segments_no_dot f (private_no_dot f Hp)).
    simpl. now rewrite Hget.
  - intros entity st.
    rewrite (data_fields_explicit _ _ _ _ (private_not_shorthand f Hp)).
    simpl. unfold bind.
    rewrite (field_step_private_present _ _ _ _ _ _ Hc Hp Hget).
    simpl. now rewrite String.eqb_refl.
  - intros entity fields st r st' Hmode Hin Hrun.
    rewrite (data_fields_explicit _ _ _ _ Hmode) in Hrun.
    apply (for_each_field_final jsondata constants f _ fields) with
      (values := []) (st := st) (st' := st'); auto.
    + intros values st0 values' st0' Hstep.
      rewrite (field_step_private_present _ _ _ _ _ _ Hc Hp Hget) in Hstep.
      injection Hstep as <- _. apply od_get_set_same.
    + intros g _ Hg. rewrite <- Hg. symmetry.
      apply output_key_no_underscore. rewrite Hg.
      now apply private_no_underscore.
Qed.

Lemma private_flag_projection_witness :
  data_fields (Some "repo")
    [("name", JStr "widgets"); ("Private", JBool false)]
    (Some ["Private"]) (Some [("org", JStr "contoso")]) ∅
  = (Ok [("Private", JStr "public")], ∅).
Proof.
  apply (proj1 (proj2 (private_flag_projection
                         [("name", JStr "widgets"); ("Private", JBool false)]
                         (Some [("org", JStr "contoso")]) "Private" false
                         eq_refl eq_refl eq_refl))).
Defined.

(** ** The projector on the shorthand values *)

Section Shorthand.

Variable mode : string.

Lemma special_step_entry (jsondata values : odict) (k : string) (v : json)
    (st : unknown_set) :
  od_get jsondata k = Some v ->
  special_step mode jsondata values k st
  = (Ok (if selected mode (k, v)
         then od_set values k (snd (emitted mode (k, v)))
         else values), st).
Proof.
  intros Hget. unfold special_step, selected, emitted. cbn [fst snd].
  destruct (_ || _); [|reflexivity].
  unfold bind, lift, getitem. rewrite Hget.
  destruct v; try reflexivity; try (destruct (String.eqb mode "nourls"); reflexivity).
Qed.

(** The loop over the keys of a well-formed item appends the selected
    entries, in the item's order, when none of their keys is already in
    the record. *)
Lemma special_loop (jsondata : odict) :
  od_wf jsondata ->
  forall (after before acc : odict) (st : unknown_set),
    jsondata = before ++ after ->
    (forall k, In k (od_keys (List.filter (selected mode) after)) ->
               ~ In k (od_keys acc)) ->
    for_each (special_step mode jsondata) (od_keys after) acc st
    = (Ok (acc ++ map (emitted mode) (List.filter (selected mode) after)),
       st).
Proof.
  intros Hwf. induction after as [|[k v] after IH];
    intros before acc st Hsplit Hfresh.
  - simpl. unfold ret. now rewrite app_nil_r.
  - assert (Hk : ~ In k (od_keys before) /\ ~ In k (od_keys after)).
    { unfold od_wf in Hwf. rewrite Hsplit, od_keys_app in Hwf. simpl in Hwf.
      apply NoDup_remove_2 in Hwf. rewrite in_app_iff in Hwf. tauto. }
    destruct Hk as [Hbefore Hafter].
    assert (Hget : od_get jsondata k = Some v)
      by (rewrite Hsplit; now apply od_get_middle).
    cbn [od_keys map fst for_each]. unfold bind.
    rewrite (special_step_entry _ _ _ _ _ Hget).
    fold (od_keys after).
    cbn [List.filter] in Hfresh |- *.
    destruct (selected mode (k, v)) eqn:Hsel.
    + rewrite od_set_fresh by (apply Hfresh; now left).
      rewrite (IH (before ++ [(k, v)])).
      * cbn [map]. rewrite <- app_assoc. reflexivity.
      * rewrite <- app_assoc. exact Hsplit.
      * intros k' Hk'. rewrite od_keys_app, in_app_iff. simpl.
        intros [Hin|[E|[]]].
        -- apply (Hfresh k'); [now right | exact Hin].
        -- subst k'. apply Hafter.
           unfold od_keys in Hk' |- *. apply in_map_iff in Hk'.
           destruct Hk' as (kv & Hfst & Hin). apply filter_In in Hin.
           apply in_map_iff. exists kv. tauto.
    + apply (IH (before ++ [(k, v)])).
      * rewrite <- app_assoc. exact Hsplit.
      * exact Hfresh.
Qed.

End Shorthand.

(** The record before the loop: the constants, when the shorthand injects
    them. *)
Lemma injected_constants (constants : option odict) :
  od_wf (constants_dict constants) ->
  (if constants_given constants
   then od_update [] (constants_dict constants) else [])
  = constants_dict constants.
Proof.
  intros Hwf. destruct constants as [[|kv c]|]; try reflexivity.
  cbn [constants_given]. apply (od_update_fresh [] _ Hwf). intros k _ [].
Qed.

Lemma od_get_filter_key (p : string -> bool) (d : odict) (k : string) :
  od_get (List.filter (fun kv => p (fst kv)) d) k
  = if p k then od_get d k else None.
Proof.
  induction d as [|[k' v'] d IH]; simpl.
  - now destruct (p k).
  - destruct (p k') eqn:Hp; simpl.
    + destruct (String.eqb_spec k' k) as [->|Hk].
      * now rewrite Hp.
      * exact IH.
    + destruct (String.eqb_spec k' k) as [->|Hk].
      * rewrite IH, Hp. reflexivity.
      * exact IH.
Qed.

Lemma data_fields_shorthand entity jsondata mode rest constants :
  str_in mode ["*"; "urls"; "nourls"] = true ->
  data_fields entity jsondata (Some (mode :: rest)) constants
  = for_each (special_step mode jsondata) (od_keys jsondata)
      (if constants_given constants && str_in mode ["*"; "nourls"]
       then od_update [] (constants_dict constants) else []).
Proof.
  intros H. unfold data_fields, bind, lift, list_index. cbn [nth_error].
  now rewrite H.
Qed.

Lemma map_emitted_keep (mode : string) (d : odict) :
  String.eqb mode "nourls" = false -> map (emitted mode) d = d.
Proof.
  intros H. rewrite <- (map_id d) at 2. apply map_ext.
  intros [k v]. unfold emitted. now rewrite H.
Qed.

(** C4 (amended). With fields = ['*'] (whatever follows the marker), an
    item with N top-level keys and constants with C entries, none of the
    constants' keys being a top-level key of the item, give the record
    made of the constants in their own order followed by the item's
    entries in the item's order, each key with its payload value: N + C
    entries. *)
Theorem data_fields_star
    (entity : option string) (jsondata : odict) (rest : list string)
    (constants : option odict) (st : unknown_set) :
  od_wf jsondata ->
  od_wf (constants_dict constants) ->
  (forall k, In k (od_keys jsondata) ->
             ~ In k (od_keys (constants_dict constants))) ->
  data_fields entity jsondata (Some ("*" :: rest)) constants st
  = (Ok (constants_dict constants ++ jsondata), st)
  /\ length (constants_dict constants ++ jsondata)
     = length jsondata + length (constants_dict constants).
Proof.
  intros Hj Hc Hdisjoint. split; [|rewrite length_app; lia].
  rewrite data_fields_shorthand by reflexivity.
  replace (str_in "*" ["*"; "nourls"]) with true by reflexivity.
  rewrite andb_true_r, (injected_constants _ Hc).
  rewrite (special_loop "*" jsondata Hj jsondata [] _ st eq_refl).
  - rewrite (map_emitted_keep "*") by reflexivity.
    do 3 f_equal. clear. induction jsondata as [|kv d IH]; [reflexivity|].
    cbn [List.filter selected String.eqb]. simpl. now rewrite IH.
  - intros k Hk. apply Hdisjoint.
    unfold od_keys in Hk |- *. apply in_map_iff in Hk.
    destruct Hk as (kv & Hfst & Hin). apply filter_In in Hin.
    apply in_map_iff. exists kv. tauto.
Qed.

Lemma data_fields_star_witness :
  data_fields (Some "repo")
    [("name", JStr "widgets"); ("html_url", JStr "https://example.org/w")]
    (Some ["*"]) (Some [("org", JStr "contoso")]) ∅
  = (Ok [("org", JStr "contoso"); ("name", JStr "widgets");
         ("html_url", JStr "https://example.org/w")], ∅).
Proof.
  apply (data_fields_star (Some "repo")
           [("name", JStr "widgets");
            ("html_url", JStr "https://example.org/w")]
           [] (Some [("org", JStr "contoso")]) ∅).
  - vm_compute. repeat constructor; simpl; intuition congruence.
  - vm_compute. repeat constructor; simpl; intuition congruence.
  - vm_compute. intuition congruence.
Defined.

(** Where C4 as first worded fails: a constant whose key is also a
    top-level key of the item.  The item's value replaces the constant's
    at the constant's position, and the record has fewer than N + C
    entries. *)
Lemma data_fields_star_key_collision :
  fst (data_fields None
         [("org", JStr "from the payload"); ("name", JStr "widgets")]
         (Some ["*"]) (Some [("org", JStr "contoso")]) ∅)
  = Ok [("org", JStr "from the payload"); ("name", JStr "widgets")]
  /\ length [("org", JStr "from the payload"); ("name", JStr "widgets")]
     <> length [("org", JStr "from the payload"); ("name", JStr "widgets")]
        + length [("org", JStr "contoso")].
Proof. split; [reflexivity | simpl; lia]. Qed.

(** C5 (amended). With fields = ['urls'] the record is made of exactly the
    item's top-level entries whose key ends with 'url', in the item's
    order, and no constant is injected.  With fields = ['nourls'], when no
    constant's key is also a selected top-level key, the record is the
    constants followed by exactly the item's entries whose key does not
    end with 'url'; a selected value that is a mapping loses its own keys
    ending in 'url' and keeps every other key with its value unchanged,
    nested mappings included; any other value is emitted as it is. *)
Theorem data_fields_urls_nourls
    (entity : option string) (jsondata : odict) (rest : list string)
    (constants : option odict) (st : unknown_set) :
  od_wf jsondata ->
  data_fields entity jsondata (Some ("urls" :: rest)) constants st
  = (Ok (List.filter ends_with_url jsondata), st)
  /\ (od_wf (constants_dict constants) ->
      (forall k,
          In k (od_keys (List.filter (fun kv => negb (ends_with_url kv))
                           jsondata)) ->
          ~ In k (od_keys (constants_dict constants))) ->
      data_fields entity jsondata (Some ("nourls" :: rest)) constants st
      = (Ok (constants_dict constants
             ++ map (fun kv => (fst kv, strip_urls (snd kv)))
                  (List.filter (fun kv => negb (ends_with_url kv)) jsondata)),
         st))
  /\ (forall d k,
         strip_urls (JDict d) = JDict (drop_url_keys d)
         /\ od_get (drop_url_keys d) k
            = if Str.endswith k "url" then None else od_get d k)
  /\ (forall v, (forall d, v <> JDict d) -> strip_urls v = v).
Proof.
  intros Hj. split; [|split; [|split]].
  - rewrite data_fields_shorthand by reflexivity.
    replace (str_in "urls" ["*"; "nourls"]) with false by reflexivity.
    rewrite andb_false_r.
    rewrite (special_loop "urls" jsondata Hj jsondata [] [] st eq_refl)
      by (intros k _ []).
    rewrite (map_emitted_keep "urls") by reflexivity.
    cbn [app]. do 2 f_equal. apply filter_ext. intros kv.
    unfold selected, ends_with_url. simpl. now rewrite orb_false_r.
  - intros Hc Hdisjoint.
    rewrite data_fields_shorthand by reflexivity.
    replace (str_in "nourls" ["*"; "nourls"]) with true by reflexivity.
    rewrite andb_true_r, (injected_constants _ Hc).
    assert (Hsel : forall kv, selected "nourls" kv = negb (ends_with_url kv))
      by (intros kv; reflexivity).
    rewrite (special_loop "nourls" jsondata Hj jsondata [] _ st eq_refl).
    + rewrite (filter_ext _ _ Hsel). reflexivity.
    + intros k Hk. apply Hdisjoint. now rewrite <- (filter_ext _ _ Hsel).
  - intros d k. split; [reflexivity|].
    unfold drop_url_keys.
    rewrite (od_get_filter_key (fun key => negb (Str.endswith key "url"))).
    now destruct (Str.endswith k "url").
  - intros v Hv. destruct v; try reflexivity.
    exfalso. now apply (Hv entries).
Qed.

Lemma data_fields_urls_nourls_witness :
  data_fields (Some "repo")
    [("name", JStr "widgets");
     ("html_url", JStr "https://example.org/w");
     ("owner", JDict [("login", JStr "acme");
                      ("avatar_url", JStr "https://example.org/a");
                      ("plan", JDict [("plan_url", JStr "kept")])])]
    (Some ["urls"]) (Some [("org", JStr "contoso")]) ∅
  = (Ok [("html_url", JStr "https://example.org/w")], ∅)
  /\ data_fields (Some "repo")
       [("name", JStr "widgets");
        ("html_url", JStr "https://example.org/w");
        ("owner", JDict [("login", JStr "acme");
                         ("avatar_url", JStr "https://example.org/a");
                         ("plan", JDict [("plan_url", JStr "kept")])])]
       (Some ["nourls"]) (Some [("org", JStr "contoso")]) ∅
     = (Ok [("org", JStr "contoso"); ("name", JStr "widgets");
            ("owner", JDict [("login", JStr "acme");
                             ("plan", JDict [("plan_url", JStr "kept")])])],
        ∅).
Proof.
  assert (Hwf : od_wf
                  [("name", JStr "widgets");
                   ("html_url", JStr "https://example.org/w");
                   ("owner",
                    JDict [("login", JStr "acme");
                           ("avatar_url", JStr "https://example.org/a");
                           ("plan", JDict [("plan_url", JStr "kept")])])])
    by (vm_compute; repeat constructor; simpl; intuition congruence).
  destruct (data_fields_urls_nourls (Some "repo") _ []
              (Some [("org", JStr "contoso")]) ∅ Hwf)
    as (Hurls & Hnourls & _).
  split; [exact Hurls|].
  apply Hnourls.
  - vm_compute. repeat constructor; simpl; intuition congruence.
  - vm_compute. intuition congruence.
Defined.

(** Where C5 as first worded fails: under 'nourls', a constant whose key is
    also a selected top-level key is not returned; the item's value takes
    its place. *)
Lemma data_fields_nourls_key_collision :
  fst (data_fields None
         [("org", JStr "from the payload"); ("name", JStr "widgets")]
         (Some ["nourls"]) (Some [("org", JStr "contoso")]) ∅)
  = Ok [("org", JStr "from the payload"); ("name", JStr "widgets")]
  /\ fst (data_fields None
            [("org", JStr "from the payload"); ("name", JStr "widgets")]
            (Some ["nourls"]) (Some [("org", JStr "contoso")]) ∅)
     <> Ok ([("org", JStr "contoso")]
            ++ map (fun kv => (fst kv, strip_urls (snd kv)))
                 (List.filter (fun kv => negb (ends_with_url kv))
                    [("org", JStr "from the payload");
                     ("name", JStr "widgets")])).
Proof.
  split; [reflexivity|]. intros H. vm_compute in H. discriminate H.
Qed.

(** ** When the projector returns *)

Lemma data_fields_requested entity jsondata fields constants :
  data_fields entity jsondata fields constants
  = data_fields entity jsondata (Some (requested entity fields)) constants
  /\ requested entity fields <> [].
Proof.
  assert (Hdef : forall e, exists f fs, default_fields e = f :: fs).
  { intros [e|]; unfold default_fields; [|eauto].
    repeat (match goal with |- context [if ?b then _ else _] =>
                              destruct b end); eauto. }
  destruct fields as [[|f fs]|]; simpl.
  - destruct (Hdef entity) as (f & fs & E). unfold data_fields.
    rewrite E. split; [reflexivity | discriminate].
  - split; [reflexivity | discriminate].
  - destruct (Hdef entity) as (f & fs & E). unfold data_fields.
    rewrite E. split; [reflexivity | discriminate].
Qed.

Lemma special_loop_returns mode jsondata :
  forall keys values st,
    (forall k, In k keys -> In k (od_keys jsondata)) ->
    exists record,
      for_each (special_step mode jsondata) keys values st = (Ok record, st).
Proof.
  induction keys as [|k keys IH]; intros values st Hkeys.
  - exists values. reflexivity.
  - assert (Hk : exists v, od_get jsondata k = Some v).
    { destruct (od_get jsondata k) as [v|] eqn:E; [now exists v|].
      apply od_get_absent in E. exfalso. apply E, Hkeys. now left. }
    destruct Hk as (v & Hget).
    cbn [for_each]. unfold bind.
    rewrite (special_step_entry mode _ _ _ _ _ Hget).
    apply IH. intros k' Hk'. apply Hkeys. now right.
Qed.

(** ** The aggregator *)

Lemma collect_Forall2 {A} (outcomes : list (res A)) (values : list A) :
  collect outcomes = Ok values ->
  List.Forall2 (fun outcome a => outcome = Ok a) outcomes values.
Proof.
  revert values. induction outcomes as [|[a|e] outcomes IH]; simpl;
    intros values H.
  - injection H as <-. constructor.
  - destruct (collect outcomes) as [l|e]; [|discriminate].
    injection H as <-. constructor; [reflexivity | now apply IH].
  - discriminate.
Qed.

Section Aggregator.

Variables (entity : option string) (fields : option (list string))
          (constants : option odict).

Lemma data_fields_projected (jsondata : odict) (st : unknown_set) :
  fst (data_fields entity jsondata fields constants st)
  = projected entity fields constants jsondata.
Proof. apply additive_result, additive_data_fields. Qed.

(** The loop appends, item after item, the projector's record, and stops
    at the first item on which the projector raises. *)
Lemma record_loop_collect (items : list odict) :
  forall retval st,
    fst (for_each
           (fun retval json_item =>
              bind (data_fields entity json_item fields constants)
                (fun record => ret (retval ++ [record])))
           items retval st)
    = match collect (map (projected entity fields constants) items) with
      | Ok records => Ok (retval ++ records)
      | Raise e => Raise e
      end.
Proof.
  induction items as [|item items IH]; intros retval st.
  - simpl. now rewrite app_nil_r.
  - cbn [for_each map collect]. unfold bind at 1. unfold bind at 1.
    pose proof (data_fields_projected item st) as Hitem.
    destruct (data_fields entity item fields constants st) as [[record|e] st1];
      simpl in Hitem; rewrite <- Hitem.
    + unfold ret at 1. rewrite IH.
      destruct (collect _) as [records|e]; [|reflexivity].
      now rewrite <- app_assoc.
    + reflexivity.
Qed.

End Aggregator.

(** ** The cache update before the record loop *)

Lemma add_constants_loop (constants : odict) :
  od_wf constants ->
  forall (after before item : odict),
    constants = before ++ after ->
    res_fold
      (fun item fldname =>
         res_bind (getitem (JDict constants) fldname)
           (fun c => Ok (od_set item fldname c)))
      (od_keys after) item
    = Ok (od_update item after).
Proof.
  intros Hwf. induction after as [|[k v] after IH]; intros before item Hsplit.
  - reflexivity.
  - assert (Hbefore : ~ In k (od_keys before)).
    { unfold od_wf in Hwf. rewrite Hsplit, od_keys_app in Hwf. simpl in Hwf.
      apply NoDup_remove_2 in Hwf. rewrite in_app_iff in Hwf. tauto. }
    assert (Hget : od_get constants k = Some v)
      by (rewrite Hsplit; now apply od_get_middle).
    cbn [od_keys map fst res_fold]. unfold getitem at 1. rewrite Hget.
    cbn [res_bind]. fold (od_keys after).
    apply (IH (before ++ [(k, v)])). rewrite <- app_assoc. exact Hsplit.
Qed.

Lemma add_constants_update (constants item : odict) :
  od_wf constants ->
  add_constants constants item = Ok (od_update item constants).
Proof.
  intros Hwf. apply (add_constants_loop constants Hwf constants [] item eq_refl).
Qed.

Lemma cache_update_map (payload : list odict) (constants : option odict) :
  od_wf (constants_dict constants) ->
  cache_update payload constants
  = Ok (map (fun item => od_update item (constants_dict constants)) payload).
Proof.
  intros Hwf. unfold cache_update.
  destruct (constants_given constants) eqn:Hgiven.
  - induction payload as [|item payload IH]; [reflexivity|].
    cbn [res_map map]. rewrite (add_constants_update _ _ Hwf).
    cbn [res_bind]. rewrite IH. reflexivity.
  - assert (Hnil : constants_dict constants = [])
      by (destruct constants as [[|kv c]|]; try reflexivity; discriminate).
    rewrite Hnil. f_equal. symmetry. rewrite <- (map_id payload) at 2.
    now apply map_ext.
Qed.

(** The result of the record loop: the projector's records for the items,
    in their order, or the projector's first exception. *)
Lemma github_data_collect entity fields constants (items : list odict)
    (st : unknown_set) :
  fst (github_data entity fields constants items st)
  = collect (map (projected entity fields constants) items).
Proof.
  unfold github_data. rewrite record_loop_collect. now destruct (collect _).
Qed.

(** On the API branch the record loop runs over the items as
    [cache_update] left them. *)
Lemma github_data_from_api_loop entity fields constants
    (payload : list odict) (st : unknown_set) :
  od_wf (constants_dict constants) ->
  github_data_from_api entity fields constants payload st
  = github_data entity fields constants
      (map (with_constants constants) payload) st.
Proof.
  intros Hwf. unfold github_data_from_api, bind, lift.
  now rewrite (cache_update_map _ _ Hwf).
Qed.

Lemma fails_on_with_constants constants (item : odict) (f : string) :
  od_wf (constants_dict constants) ->
  fails_on (with_constants constants item) constants f
  = fails_on item constants f.
Proof.
  intros Hwf. unfold fails_on, with_constants.
  destruct (is_private f); [|reflexivity].
  destruct (is_constant constants f) eqn:Hc; [reflexivity|].
  cbn [negb andb]. f_equal. unfold od_mem.
  rewrite (od_get_update _ _ _ Hwf).
  destruct (od_get (constants_dict constants) f) as [c|] eqn:Hget;
    [|reflexivity].
  now rewrite (is_constant_get constants f c Hget) in Hc.
Qed.

Lemma find_fails_on_with_constants constants (item : odict)
    (fields : list string) :
  od_wf (constants_dict constants) ->
  List.find (fails_on (with_constants constants item) constants) fields
  = List.find (fails_on item constants) fields.
Proof.
  intros Hwf. induction fields as [|f rest IH]; [reflexivity|].
  cbn [List.find]. now rewrite (fails_on_with_constants _ _ _ Hwf), IH.
Qed.

(** The projector returns unless it runs on an actual list of field names
    one of which it fails on. *)
Lemma data_fields_returns entity jsondata fields constants st :
  (explicit_mode (requested entity fields) = true ->
   List.find (fails_on jsondata constants) (requested entity fields) = None) ->
  exists record st',
    data_fields entity jsondata fields constants st = (Ok record, st').
Proof.
  intros Hsafe.
  destruct (data_fields_requested entity jsondata fields constants)
    as [-> Hne].
  destruct (explicit_mode (requested entity fields)) eqn:Hmode.
  - rewrite (data_fields_explicit _ _ _ _ Hmode).
    pose proof (for_each_field_outcome jsondata constants
                  (requested entity fields) [] st) as H.
    now rewrite (Hsafe eq_refl) in H.
  - destruct (requested entity fields) as [|mode rest]; [contradiction|].
    unfold explicit_mode in Hmode. apply negb_false_iff in Hmode.
    rewrite (data_fields_shorthand _ _ _ _ _ Hmode).
    destruct (special_loop_returns mode jsondata (od_keys jsondata)
                (if constants_given constants
                    && str_in mode ["*"; "nourls"]
                 then od_update [] (constants_dict constants) else [])
                st (fun k H => H)) as (record & H).
    exists record, st. exact H.
Qed.

Lemma collect_app {A} (l1 l2 : list (res A)) :
  collect (l1 ++ l2)
  = match collect l1, collect l2 with
    | Ok a, Ok b => Ok (a ++ b)
    | Ok _, Raise e => Raise e
    | Raise e, _ => Raise e
    end.
Proof.
  induction l1 as [|[a|e] l1 IH]; simpl.
  - now destruct (collect l2).
  - rewrite IH. destruct (collect l1); [|reflexivity].
    now destruct (collect l2).
  - reflexivity.
Qed.

Lemma collect_concat {A B} (f : A -> res B) (pages : list (list A)) :
  collect (map f (concat pages))
  = match collect (map (fun page => collect (map f page)) pages) with
    | Ok batches => Ok (concat batches)
    | Raise e => Raise e
    end.
Proof.
  induction pages as [|page pages IH]; [reflexivity|].
  cbn [concat map collect]. rewrite map_app, collect_app, IH.
  destruct (collect (map f page)); [|reflexivity].
  now destruct (collect (map (fun page => collect (map f page)) pages)).
Qed.

Lemma collect_returns {A B} (f : A -> res B) (l : list A) :
  (forall a, In a l -> exists b, f a = Ok b) ->
  exists bs, collect (map f l) = Ok bs.
Proof.
  induction l as [|a l IH]; intros H.
  - now exists [].
  - destruct (H a (or_introl eq_refl)) as (b & Hb).
    destruct IH as (bs & Hbs); [intros a' Ha'; apply H; now right|].
    exists (b :: bs). cbn [map collect]. now rewrite Hb, Hbs.
Qed.

(** C8 (amended). The aggregator takes the items of all pages in arrival
    order, page after page and within a page in the page's order, puts the
    constants into every item ([cache_update], which also writes the
    cache) and applies the projector to the items so merged, in that
    order: its result is the list of the projector's records, one per item
    in arrival order, or the projector's first exception.  It returns one
    record per item unless an item lacks a requested 'private' (C2).
    Aggregating all pages gives what aggregating page after page and
    concatenating the batches gives, so page boundaries do not show.  The
    pages [[{id: 1}], [{id: 2}, {id: 3}]] with fields = ['id'] give three
    records, for 1, 2, 3 in that order.  No page, or pages without items,
    give the empty batch and leave the unknown-field set alone.  On a
    batch read back from the cache the loop runs on the items as read. *)
Theorem github_data_in_arrival_order
    (entity : option string) (fields : option (list string))
    (constants : option odict) :
  od_wf (constants_dict constants) ->
  (forall pages st,
      fst (github_data_from_api entity fields constants
             (github_allpages pages) st)
      = collect (map (fun item =>
                        projected entity fields constants
                          (with_constants constants item))
                   (concat pages)))
  /\ (forall pages st,
         (explicit_mode (requested entity fields) = true ->
          forall item, In item (concat pages) ->
                       List.find (fails_on item constants)
                         (requested entity fields) = None) ->
         exists records,
           fst (github_data_from_api entity fields constants
                  (github_allpages pages) st)
           = Ok records
           /\ length records = length (concat pages)
           /\ List.Forall2
                (fun item record =>
                   projected entity fields constants
                     (with_constants constants item) = Ok record)
                (concat pages) records)
  /\ (forall pages st,
         fst (github_data_from_api entity fields constants
                (github_allpages pages) st)
         = match collect
                   (map (fun page =>
                           fst (github_data_from_api entity fields constants
                                  page st))
                      pages) with
           | Ok batches => Ok (concat batches)
           | Raise e => Raise e
           end)
  /\ fst (github_data_from_api None (Some ["id"]) None
            (github_allpages
               [[ [("id", JInt 1)] ];
                [ [("id", JInt 2)]; [("id", JInt 3)] ]]) ∅)
     = Ok [ [("id", JInt 1)]; [("id", JInt 2)]; [("id", JInt 3)] ]
  /\ (forall pages st,
         concat pages = [] ->
         github_data_from_api entity fields constants
           (github_allpages pages) st
         = (Ok [], st))
  /\ (forall items st,
         fst (github_data entity fields constants items st)
         = collect (map (projected entity fields constants) items)).
Proof.
  intros Hwf.
  assert (Horder : forall items st,
             fst (github_data_from_api entity fields constants items st)
             = collect (map (fun item =>
                               projected entity fields constants
                                 (with_constants constants item))
                          items)).
  { intros items st.
    rewrite (github_data_from_api_loop _ _ _ _ _ Hwf), github_data_collect.
    now rewrite map_map. }
  split; [intros pages st; apply Horder|].
  split; [|split; [|split; [|split]]].
  - intros pages st Hsafe. unfold github_allpages. rewrite Horder.
    destruct (collect_returns
                (fun item => projected entity fields constants
                               (with_constants constants item))
                (concat pages)) as (records & Hrecords).
    { intros item Hitem.
      destruct (data_fields_returns entity (with_constants constants item)
                  fields constants ∅) as (record & st' & Hrun).
      - intros Hmode. rewrite (find_fails_on_with_constants _ _ _ Hwf).
        now apply Hsafe.
      - exists record. unfold projected. now rewrite Hrun. }
    exists records. split; [exact Hrecords|].
    apply collect_Forall2 in Hrecords. split.
    + apply Forall2_length in Hrecords. now rewrite length_map in Hrecords.
    + clear Hsafe. revert records Hrecords.
      induction (concat pages) as [|item items IH]; intros records H;
        inversion H; subst; constructor; auto.
  - intros pages st. unfold github_allpages. rewrite Horder, collect_concat.
    replace (map (fun page =>
                    fst (github_data_from_api entity fields constants page st))
               pages)
      with (map (fun page =>
                   collect (map (fun item =>
                                   projected entity fields constants
                                     (with_constants constants item))
                              page))
              pages); [reflexivity|].
    apply map_ext. intros page. now rewrite Horder.
  - reflexivity.
  - intros pages st H. unfold github_allpages. rewrite H.
    rewrite (github_data_from_api_loop _ _ _ _ _ Hwf). reflexivity.
  - intros items st. apply github_data_collect.
Qed.

Lemma github_data_in_arrival_order_witness :
  (exists records,
      fst (github_data_from_api (Some "member") (Some ["login"; "org"])
             (Some [("org", JStr "contoso")])
             (github_allpages
                [[ [("login", JStr "octocat")]; [("login", JStr "hubot")] ];
                 [ [("login", JStr "monalisa")] ]]) ∅)
      = Ok records
      /\ length records = 3)
  /\ github_data_from_api (Some "member") (Some ["login"; "org"])
       (Some [("org", JStr "contoso")]) (github_allpages [[]; []]) ∅
     = (Ok [], ∅).
Proof.
  assert (Hwf : od_wf (constants_dict (Some [("org", JStr "contoso")]))).
  { vm_compute. repeat constructor; simpl; intuition congruence. }
  destruct (github_data_in_arrival_order (Some "member")
              (Some ["login"; "org"]) (Some [("org", JStr "contoso")]) Hwf)
    as (_ & Hone & _ & _ & Hnone & _).
  split.
  - destruct (Hone
                [[ [("login", JStr "octocat")]; [("login", JStr "hubot")] ];
                 [ [("login", JStr "monalisa")] ]] ∅)
      as (records & Hrun & Hlen & _).
    + intros _ item [<-|[<-|[<-|[]]]]; reflexivity.
    + exists records. split; [exact Hrun | exact Hlen].
  - apply Hnone. reflexivity.
Defined.

(** Where C8 as first worded fails.  On the API branch the item that is
    projected is the item with the constants put into it, so a requested
    path under a key that the constants have too is not resolved in what
    arrived: the record holds [None] where the projector, applied to the
    item as it arrived, finds a value.  And when an item lacks a requested
    'private' the aggregator raises and returns no record at all. *)
Lemma github_data_not_one_record_per_arrived_item :
  (fst (github_data_from_api None (Some ["owner.login"])
          (Some [("owner", JStr "acme")])
          (github_allpages
             [[ [("owner", JDict [("login", JStr "octocat")])] ]]) ∅)
   = Ok [ [("owner_login", JNull)] ]
   /\ projected None (Some ["owner.login"]) (Some [("owner", JStr "acme")])
        [("owner", JDict [("login", JStr "octocat")])]
      = Ok [("owner_login", JStr "octocat")])
  /\ fst (github_data_from_api None (Some ["name"; "private"]) None
            (github_allpages
               [[ [("name", JStr "gadgets"); ("private", JBool false)] ];
                [ [("name", JStr "widgets")] ]]) ∅)
     = Raise (KeyError "private").
Proof.
  repeat split; vm_compute; reflexivity.
Qed.

(** ** A batch of plain fields *)

Section PlainBatch.

Variables (entity : option string) (constants : option odict)
          (fields : list string).
Hypothesis Hmode : explicit_mode fields = true.
Hypothesis Hplain : forallb (plain_field constants) fields = true.

Lemma data_fields_plain_run (jsondata : odict) (st : unknown_set) :
  data_fields entity jsondata (Some fields) constants st
  = (Ok (plain_record fields jsondata), unknown_in jsondata fields ∪ st).
Proof.
  rewrite (data_fields_explicit _ _ _ _ Hmode).
  apply (for_each_plain _ _ _ Hplain).
Qed.

Lemma record_loop_plain (items : list odict) :
  forall retval st,
    for_each
      (fun retval json_item =>
         bind (data_fields entity json_item (Some fields) constants)
           (fun record => ret (retval ++ [record])))
      items retval st
    = (Ok (retval ++ map (plain_record fields) items),
       unknown_in_batch fields items ∪ st).
Proof.
  induction items as [|item items IH]; intros retval st.
  - simpl. unfold ret, unknown_in_batch. simpl.
    now rewrite app_nil_r, (left_id_L ∅ (∪)).
  - cbn [for_each map]. unfold bind at 1. unfold bind at 1.
    rewrite data_fields_plain_run. unfold ret at 1. rewrite IH.
    rewrite <- app_assoc. f_equal.
    unfold unknown_in_batch. cbn [map union_list foldr].
    rewrite (assoc_L (∪)). f_equal. apply (comm_L (∪)).
Qed.

Lemma github_data_plain (items : list odict) (st : unknown_set) :
  github_data entity (Some fields) constants items st
  = (Ok (map (plain_record fields) items),
     unknown_in_batch fields items ∪ st).
Proof. unfold github_data. now rewrite record_loop_plain. Qed.

End PlainBatch.

Lemma resolved_unresolved (jsondata : odict) (path : string) :
  resolves jsondata path = false -> resolved jsondata path = JNull.
Proof.
  rewrite resolved_lookup. unfold resolves.
  now destruct (resolve_spec _ _).
Qed.

(** The last assignment to an output key decides its value; when one
    requested path only has that output key, it is that path's value. *)
Lemma plain_record_get (jsondata : odict) (p : string) (fields : list string) :
  (forall g, In g fields -> output_key g = output_key p -> g = p) ->
  forall values,
    In p fields
    \/ od_get values (output_key p) = Some (resolved jsondata p) ->
    od_get (fold_left (assign_resolved jsondata) fields values) (output_key p)
    = Some (resolved jsondata p).
Proof.
  induction fields as [|g rest IH]; simpl; intros Hkey values Hstart.
  - destruct Hstart as [[]|H]; exact H.
  - apply IH; [intros g' Hg'; apply Hkey; now right|].
    unfold assign_resolved.
    destruct (string_dec (output_key g) (output_key p)) as [E|Hne].
    + right. rewrite (Hkey g (or_introl eq_refl) E), od_get_set_same.
      reflexivity.
    + destruct Hstart as [[E|Hin]|Hval].
      * subst g. contradiction.
      * now left.
      * right. now rewrite od_get_set_other.
Qed.

Lemma unknown_in_elem (jsondata : odict) (fields : list string) (p : string) :
  p ∈ unknown_in jsondata fields
  <-> In p fields /\ resolves jsondata p = false.
Proof.
  unfold unknown_in. rewrite elem_of_list_to_set, list_elem_of_In, filter_In.
  now rewrite negb_true_iff.
Qed.

Lemma unknown_in_batch_elem (fields : list string) (items : list odict)
    (p : string) :
  p ∈ unknown_in_batch fields items
  <-> exists item, In item items /\ In p fields /\ resolves item p = false.
Proof.
  unfold unknown_in_batch. induction items as [|item items IH]; simpl.
  - rewrite elem_of_empty. split; [tauto | intros (item & [] & _)].
  - rewrite elem_of_union, IH, unknown_in_elem. split.
    + intros [H | (item' & Hin & H)].
      * exists item. tauto.
      * exists item'. tauto.
    + intros (item' & [<-|Hin] & H); [now left|].
      right. exists item'. tauto.
Qed.

Lemma unknown_in_batch_single (p : string) (items : list odict) :
  items <> [] ->
  (forall item, In item items -> resolves item p = false) ->
  unknown_in_batch [p] items = {[ p ]}.
Proof.
  intros Hne Hall. apply set_eq. intros x.
  rewrite unknown_in_batch_elem, elem_of_singleton. split.
  - intros (item & _ & [<-|[]] & _). reflexivity.
  - intros ->. destruct items as [|item items]; [contradiction|].
    exists item. split; [now left|]. split; [now left|].
    apply Hall. now left.
Qed.

(** ** A batch under any request of field names *)

Section AnyBatch.

Variables (entity : option string) (constants : option odict)
          (fields : list string).
Hypothesis Hmode : explicit_mode fields = true.

Lemma data_fields_assign_run (jsondata : odict) (st : unknown_set) :
  List.find (fails_on jsondata constants) fields = None ->
  data_fields entity jsondata (Some fields) constants st
  = (Ok (fold_left (assign_field jsondata constants) fields []),
     recorded_for jsondata constants fields ∪ st).
Proof.
  intros H. rewrite (data_fields_explicit _ _ _ _ Hmode).
  now apply for_each_field_assign.
Qed.

Lemma github_data_assign (items : list odict) :
  (forall item, In item items ->
                List.find (fails_on item constants) fields = None) ->
  forall st,
    github_data entity (Some fields) constants items st
    = (Ok (map (fun item =>
                  fold_left (assign_field item constants) fields [])
             items),
       recorded_in_batch constants fields items ∪ st).
Proof.
  intros Hsafe st. unfold github_data.
  assert (Hloop : forall retval st,
             for_each
               (fun retval json_item =>
                  bind (data_fields entity json_item (Some fields) constants)
                    (fun record => ret (retval ++ [record])))
               items retval st
             = (Ok (retval
                    ++ map (fun item =>
                              fold_left (assign_field item constants)
                                fields [])
                         items),
                recorded_in_batch constants fields items ∪ st)).
  { clear st. induction items as [|item items IH]; intros retval st.
    - simpl. unfold ret, recorded_in_batch. simpl.
      now rewrite app_nil_r, (left_id_L ∅ (∪)).
    - rewrite for_each_cons. cbv beta. rewrite record_body.
      rewrite data_fields_assign_run by (apply Hsafe; now left).
      rewrite IH by (intros item' Hin; apply Hsafe; now right).
      cbn [map]. rewrite <- app_assoc. f_equal.
      unfold recorded_in_batch. cbn [map union_list foldr].
      rewrite (assoc_L (∪)). f_equal. apply (comm_L (∪)). }
  apply (Hloop []).
Qed.

End AnyBatch.

Lemma recorded_for_elem jsondata constants (fields : list string)
    (g : string) :
  g ∈ recorded_for jsondata constants fields
  <-> In g fields /\ is_constant constants g = false
      /\ resolves jsondata g = false.
Proof.
  unfold recorded_for.
  rewrite elem_of_list_to_set, list_elem_of_In, filter_In, negb_true_iff,
    orb_false_iff.
  tauto.
Qed.

Lemma recorded_in_batch_elem constants (fields : list string)
    (items : list odict) (g : string) :
  g ∈ recorded_in_batch constants fields items
  <-> In g fields /\ is_constant constants g = false
      /\ exists item, In item items /\ resolves item g = false.
Proof.
  unfold recorded_in_batch. induction items as [|item items IH]; simpl.
  - rewrite elem_of_empty. split; [tauto | intros (_ & _ & item & [] & _)].
  - rewrite elem_of_union, IH, recorded_for_elem. split.
    + intros [(Hin & Hc & H) | (Hin & Hc & item' & Hitem & H)].
      * split; [exact Hin|]. split; [exact Hc|]. exists item. tauto.
      * split; [exact Hin|]. split; [exact Hc|]. exists item'. tauto.
    + intros (Hin & Hc & item' & [<-|Hitem] & H); [now left|].
      right. split; [exact Hin|]. split; [exact Hc|]. now exists item'.
Qed.

(** A requested path that is not a constant and does not resolve in an
    item on which the projector returns is assigned [None]. *)
Lemma unresolved_assigned jsondata constants (fields : list string)
    (p : string) :
  In p fields ->
  is_constant constants p = false ->
  List.find (fails_on jsondata constants) fields = None ->
  resolves jsondata p = false ->
  first_assigned constants p = output_key p
  /\ assigned_value jsondata constants p = JNull.
Proof.
  intros Hin Hc Hsafe Hnone.
  assert (Hp : is_private p = false).
  { destruct (is_private p) eqn:Hp; [|reflexivity].
    pose proof (find_none _ _ Hsafe p Hin) as Hok.
    unfold fails_on in Hok. rewrite Hp, Hc in Hok. cbn [negb andb] in Hok.
    rewrite <- (resolves_top_level jsondata p (private_no_dot p Hp)) in Hok.
    now rewrite Hnone in Hok. }
  destruct (plain_field_assign jsondata constants p) as [-> ->].
  - unfold plain_field. now rewrite Hc, Hp.
  - split; [reflexivity | now apply resolved_unresolved].
Qed.

(** C9 (amended). For every request, the aggregator only ever adds to the
    unknown-field set, and what the set holds never alters what is
    returned; on the API branch it is the record loop on the items with
    the constants put into them.  On an actual list of field names,
    whatever else is requested, for every batch of M items on which the
    projector does not raise (no item lacks a requested 'private', C2) and
    every requested path that is not a key of the constants and resolves
    in none of the items, with no path requested after it that is
    assigned its output key: the aggregator returns M records, each with
    [None] under the path's output key; the unknown-field set afterwards
    holds what it held before and the requested paths that are not
    constants and fail to resolve in some item, each once however many
    items there are; so when M >= 1 it holds the path, and when every
    other requested path is a constant or resolves in every item, it is
    the old set with exactly that path added, one entry more if it was
    not there. *)
Theorem github_data_unresolved_path :
  (forall entity fields constants items,
      additive (github_data entity fields constants items))
  /\ (forall entity fields constants payload st,
         od_wf (constants_dict constants) ->
         github_data_from_api entity fields constants payload st
         = github_data entity fields constants
             (map (with_constants constants) payload) st)
  /\ (forall entity constants fields before p after items
             (st : unknown_set),
         fields = before ++ p :: after ->
         explicit_mode fields = true ->
         is_constant constants p = false ->
         (forall item, In item items ->
                       List.find (fails_on item constants) fields = None) ->
         (forall g, In g after ->
                    first_assigned constants g = output_key p -> g = p) ->
         (forall item, In item items -> resolves item p = false) ->
         exists records st',
           github_data entity (Some fields) constants items st
           = (Ok records, st')
           /\ length records = length items
           /\ (forall record, In record records ->
                              od_get record (output_key p) = Some JNull)
           /\ (forall g,
                  g ∈ st'
                  <-> g ∈ st
                      \/ (In g fields /\ is_constant constants g = false
                          /\ exists item,
                              In item items /\ resolves item g = false))
           /\ st ⊆ st'
           /\ (items <> [] -> p ∈ st')
           /\ (items <> [] ->
               (forall g, In g fields -> g <> p ->
                          is_constant constants g = true
                          \/ forall item, In item items ->
                                          resolves item g = true) ->
               st' = {[ p ]} ∪ st /\ (p ∉ st -> size st' = S (size st)))).
Proof.
  split; [intros; apply additive_github_data|].
  split; [intros; now apply github_data_from_api_loop|].
  intros entity constants fields before p after items st Hfields Hmode Hc
    Hsafe Hlast Hnone.
  assert (Hp : In p fields).
  { rewrite Hfields, in_app_iff. right. now left. }
  exists (map (fun item => fold_left (assign_field item constants) fields [])
            items),
         (recorded_in_batch constants fields items ∪ st).
  split; [now apply github_data_assign|].
  split; [apply length_map|].
  split.
  { intros record Hrec. apply in_map_iff in Hrec as (item & <- & Hitem).
    destruct (unresolved_assigned item constants fields p Hp Hc
                (Hsafe item Hitem) (Hnone item Hitem)) as [Hkey Hval].
    rewrite <- Hkey, <- Hval, Hfields. apply assigned_last.
    intros g Hg E. apply (Hlast g Hg). now rewrite <- Hkey. }
  split.
  { intros g. rewrite elem_of_union, recorded_in_batch_elem. tauto. }
  split; [apply union_subseteq_r|].
  split.
  { intros Hne. apply elem_of_union_l, recorded_in_batch_elem.
    split; [exact Hp|]. split; [exact Hc|].
    destruct items as [|item items]; [contradiction|].
    exists item. split; [now left | apply Hnone; now left]. }
  intros Hne Hothers.
  assert (Hset : recorded_in_batch constants fields items = {[ p ]}).
  { apply set_eq. intros g.
    rewrite recorded_in_batch_elem, elem_of_singleton. split.
    - intros (Hg & Hgc & item & Hitem & Hgnone).
      destruct (string_dec g p) as [E|Hgp]; [exact E|].
      destruct (Hothers g Hg Hgp) as [Hgc'|Hres]; [congruence|].
      rewrite (Hres item Hitem) in Hgnone. discriminate.
    - intros ->. split; [exact Hp|]. split; [exact Hc|].
      destruct items as [|item items]; [contradiction|].
      exists item. split; [now left | apply Hnone; now left]. }
  rewrite Hset. split; [reflexivity|]. intros Hfresh.
  rewrite size_union by now apply disjoint_singleton_l.
  now rewrite size_singleton.
Qed.

Lemma github_data_unresolved_path_witness :
  exists records,
    github_data (Some "collab")
      (Some ["login"; "owner"; "repo"; "id"; "email"])
      (Some [("owner", JStr "acme"); ("repo", JStr "widgets")])
      [ [("login", JStr "octocat"); ("id", JInt 1)];
        [("login", JStr "hubot"); ("id", JInt 2)] ] ∅
    = (Ok records, {[ "email" ]} ∪ ∅)
    /\ length records = 2
    /\ (forall record, In record records ->
                       od_get record "email" = Some JNull)
    /\ size ({[ "email" ]} ∪ (∅ : unknown_set)) = 1.
Proof.
  destruct (proj2 (proj2 github_data_unresolved_path) (Some "collab")
              (Some [("owner", JStr "acme"); ("repo", JStr "widgets")])
              ["login"; "owner"; "repo"; "id"; "email"]
              ["login"; "owner"; "repo"; "id"] "email" []
              [ [("login", JStr "octocat"); ("id", JInt 1)];
                [("login", JStr "hubot"); ("id", JInt 2)] ] ∅)
    as (records & st' & Hrun & Hlen & Hnull & _ & _ & _ & Hone).
  - reflexivity.
  - reflexivity.
  - reflexivity.
  - intros item [<-|[<-|[]]]; reflexivity.
  - intros g [].
  - intros item [<-|[<-|[]]]; reflexivity.
  - destruct (Hone ltac:(discriminate)) as [-> Hsize].
    + intros g [<-|[<-|[<-|[<-|[<-|[]]]]]] Hne;
        try (left; reflexivity); try contradiction;
        right; intros item [<-|[<-|[]]]; reflexivity.
    + exists records. split; [exact Hrun|]. split; [exact Hlen|].
      split; [exact Hnull|]. apply Hsize, not_elem_of_empty.
Defined.

(** Where C9 as first worded fails.  A requested path that resolves in no
    item but is a key of the constants (here 'owner' and 'repo', which the
    collaborators command requests by default and supplies as constants)
    is emitted with the constant, not [None], and nothing is recorded; an
    empty batch records nothing either; a path requested later under the
    same output key leaves its own value there; and when the path is
    named 'private' the aggregator raises and returns no record. *)
Lemma github_data_unresolved_but_constant :
  (resolves [("login", JStr "octocat"); ("id", JInt 1)] "owner" = false
   /\ github_data (Some "collab") None
        (Some [("owner", JStr "acme"); ("repo", JStr "widgets")])
        [ [("login", JStr "octocat"); ("id", JInt 1)] ] ∅
      = (Ok [ [("login", JStr "octocat"); ("owner", JStr "acme");
               ("repo", JStr "widgets"); ("id", JInt 1)] ], ∅)
   /\ od_get [("login", JStr "octocat"); ("owner", JStr "acme");
              ("repo", JStr "widgets"); ("id", JInt 1)] (output_key "owner")
      <> Some JNull
   /\ "owner" ∉ (∅ : unknown_set))
  /\ github_data None (Some ["email"]) None [] ∅ = (Ok [], ∅)
  /\ (resolves [("a_b", JInt 1)] "a.b" = false
      /\ github_data None (Some ["a.b"; "a_b"]) None [ [("a_b", JInt 1)] ] ∅
         = (Ok [ [("a_b", JInt 1)] ], {[ "a.b" ]}))
  /\ (resolves [("name", JStr "widgets")] "private" = false
      /\ github_data None (Some ["name"; "private"]) None
           [ [("name", JStr "widgets")] ] ∅
         = (Raise (KeyError "private"), {[ "private" ]})).
Proof.
  split; [|split; [reflexivity|split; split; vm_compute; reflexivity]].
  split; [reflexivity|]. split; [reflexivity|]. split.
  - intros H. vm_compute in H. discriminate H.
  - apply not_elem_of_empty.
Qed.


(** * More properties *)

(** ** When the projector raises *)


(** X1. The projector raises in one situation only.  With a shorthand
    value it always returns.  With an actual list of field names (given,
    or the defaults of the entity) it raises exactly when one of them is
    named 'private' in some letter case, is not a key of the constants and
    is not a key of the item; the exception is then [KeyError] with the
    name of the first such field.  No [TypeError] or [IndexError] ever
    leaves it. *)
Theorem data_fields_outcome
    (entity : option string) (jsondata : odict)
    (fields : option (list string)) (constants : option odict)
    (st : unknown_set) :
  match (if explicit_mode (requested entity fields)
         then List.find (fails_on jsondata constants)
                (requested entity fields)
         else None) with
  | Some f =>
      exists st',
        data_fields entity jsondata fields constants st
        = (Raise (KeyError f), st')
  | None =>
      exists record st',
        data_fields entity jsondata fields constants st = (Ok record, st')
  end.
Proof.
  destruct (data_fields_requested entity jsondata fields constants)
    as [-> Hne].
  destruct (explicit_mode (requested entity fields)) eqn:Hmode.
  - rewrite (data_fields_explicit _ _ _ _ Hmode).
    apply for_each_field_outcome.
  - destruct (requested entity fields) as [|mode rest]; [contradiction|].
    unfold explicit_mode in Hmode. apply negb_false_iff in Hmode.
    rewrite (data_fields_shorthand _ _ _ _ _ Hmode).
    destruct (special_loop_returns mode jsondata (od_keys jsondata)
                (if constants_given constants
                    && str_in mode ["*"; "nourls"]
                 then od_update [] (constants_dict constants) else [])
                st (fun k H => H)) as (record & H).
    exists record, st. exact H.
Qed.

(** ** The first key of a record, and the sort key *)

Lemma hd_od_set (d : odict) (k : string) (v : json) :
  hd_error (od_keys (od_set d k v))
  = match d with
    | [] => Some k
    | _ => hd_error (od_keys d)
    end.
Proof.
  destruct d as [|[k' v'] d]; simpl; [reflexivity|].
  now destruct (String.eqb k' k).
Qed.

Lemma od_set_not_nil (d : odict) (k : string) (v : json) : od_set d k v <> [].
Proof.
  destruct d as [|[k' v'] d]; simpl; [discriminate|].
  destruct (String.eqb k' k); discriminate.
Qed.

Lemma field_step_head jsondata constants values g st values' st' :
  field_step jsondata constants values g st = (Ok values', st') ->
  values' <> []
  /\ hd_error (od_keys values')
     = match values with
       | [] => Some (first_assigned constants g)
       | _ => hd_error (od_keys values)
       end.
Proof.
  unfold field_step, first_assigned, is_constant. intros H.
  destruct (constants_given constants && od_mem (constants_dict constants) g).
  - apply bind_Ok_inv in H as (c & st1 & _ & H). injection H as <- _.
    split; [apply od_set_not_nil | apply hd_od_set].
  - apply bind_Ok_inv in H as (v & st1 & _ & H).
    destruct (String.eqb (Str.lower g) "private").
    + apply bind_Ok_inv in H as (p & st2 & _ & H). injection H as <- _.
      split; [apply od_set_not_nil|].
      rewrite hd_od_set.
      destruct (od_set values (Str.replace g "." "_") v) eqn:E.
      * now apply od_set_not_nil in E.
      * rewrite <- E, hd_od_set. reflexivity.
    + injection H as <- _.
      split; [apply od_set_not_nil | apply hd_od_set].
Qed.

Lemma for_each_field_head jsondata constants fields :
  forall values st record st',
    for_each (field_step jsondata constants) fields values st
    = (Ok record, st') ->
    values <> [] ->
    record <> [] /\ hd_error (od_keys record) = hd_error (od_keys values).
Proof.
  induction fields as [|g rest IH]; intros values st record st' Hrun Hne.
  - injection Hrun as <- _. now split.
  - cbn [for_each] in Hrun.
    apply bind_Ok_inv in Hrun as (values1 & st1 & Hstep & Hrest).
    destruct (field_step_head _ _ _ _ _ _ _ Hstep) as [Hne1 Hhd].
    destruct (IH _ _ _ _ Hrest Hne1) as [Hrec Hhd'].
    split; [exact Hrec|]. rewrite Hhd', Hhd.
    destruct values; [contradiction | reflexivity].
Qed.

Lemma explicit_record_head entity jsondata fields constants st record st' :
  explicit_mode fields = true ->
  data_fields entity jsondata (Some fields) constants st = (Ok record, st') ->
  exists f0 rest v tail,
    fields = f0 :: rest
    /\ record = (first_assigned constants f0, v) :: tail.
Proof.
  intros Hmode Hrun. rewrite (data_fields_explicit _ _ _ _ Hmode) in Hrun.
  destruct fields as [|f0 rest]; [discriminate|].
  cbn [for_each] in Hrun.
  apply bind_Ok_inv in Hrun as (values1 & st1 & Hstep & Hrest).
  destruct (field_step_head _ _ _ _ _ _ _ Hstep) as [Hne1 Hhd].
  destruct (for_each_field_head _ _ _ _ _ _ _ Hrest Hne1) as [Hrec Hhd'].
  rewrite Hhd in Hhd'.
  destruct record as [|[k v] tail]; [contradiction|].
  simpl in Hhd'. injection Hhd' as ->.
  now exists f0, rest, v, tail.
Qed.

(** X2. With an actual list of field names a record that is returned is
    never empty, its first key is the one assigned for the first requested
    field (the field's own name when it is a constant, its name with '.'
    replaced by '_' otherwise), later fields cannot displace it, and so
    [data_sort] never raises on such a record: it returns the lower-cased
    string of the value under that first key. *)
Theorem explicit_record_sort_key
    (entity : option string) (jsondata : odict) (fields : list string)
    (constants : option odict) (st st' : unknown_set) (record : odict) :
  explicit_mode fields = true ->
  data_fields entity jsondata (Some fields) constants st = (Ok record, st') ->
  exists f0 rest v,
    fields = f0 :: rest
    /\ hd_error (od_keys record) = Some (first_assigned constants f0)
    /\ od_get record (first_assigned constants f0) = Some v
    /\ forall py_str py_lower,
        data_sort py_str py_lower record = Ok (py_lower (py_str v)).
Proof.
  intros Hmode Hrun.
  destruct (explicit_record_head _ _ _ _ _ _ _ Hmode Hrun)
    as (f0 & rest & v & tail & -> & ->).
  exists f0, rest, v. split; [reflexivity|]. split; [reflexivity|].
  assert (Hget : od_get ((first_assigned constants f0, v) :: tail)
                   (first_assigned constants f0) = Some v)
    by (simpl; now rewrite String.eqb_refl).
  split; [exact Hget|].
  intros py_str py_lower. unfold data_sort, list_index, getitem.
  cbn [od_keys map fst nth_error res_bind]. now rewrite Hget.
Qed.

Lemma explicit_record_sort_key_witness :
  exists v,
    od_get [("owner_login", JStr "Acme"); ("name", JStr "widgets")]
      "owner_login" = Some v
    /\ data_sort (fun _ => "Acme") (fun _ => "acme")
         [("owner_login", JStr "Acme"); ("name", JStr "widgets")]
       = Ok "acme".
Proof.
  destruct (explicit_record_sort_key (Some "repo")
              [("name", JStr "widgets");
               ("owner", JDict [("login", JStr "Acme")])]
              ["owner.login"; "name"] None ∅ ∅
              [("owner_login", JStr "Acme"); ("name", JStr "widgets")]
              eq_refl eq_refl)
    as (f0 & rest & v & Hfields & _ & Hget & Hsort).
  injection Hfields as <- <-.
  exists v. split; [exact Hget|].
  exact (Hsort (fun _ => "Acme") (fun _ => "acme")).
Defined.

(** ** The default fields *)

Lemma default_fields_safe (entity : option string) :
  explicit_mode (default_fields entity) = true
  /\ forall jsondata constants,
      List.find (fails_on jsondata constants) (default_fields entity) = None.
Proof.
  destruct entity as [e|]; unfold default_fields;
    repeat (match goal with |- context [if String.eqb e ?x then _ else _] =>
                              destruct (String.eqb e x) end);
    (split; [reflexivity | intros; reflexivity]).
Qed.

(** X3. When no field list is given ([None] or an empty list), whatever
    the entity name, the item and the constants, the projector returns: it
    runs on the defaults of the entity, none of which is a shorthand value
    or named 'private', and the record it returns is not empty. *)
Theorem data_fields_defaults_return
    (entity : option string) (jsondata : odict) (constants : option odict)
    (st : unknown_set) :
  data_fields entity jsondata None constants
  = data_fields entity jsondata (Some (default_fields entity)) constants
  /\ data_fields entity jsondata (Some []) constants
     = data_fields entity jsondata (Some (default_fields entity)) constants
  /\ exists record st',
      data_fields entity jsondata None constants st = (Ok record, st')
      /\ record <> [].
Proof.
  split; [exact (proj1 (data_fields_requested entity jsondata None constants))|].
  split;
    [exact (proj1 (data_fields_requested entity jsondata (Some []) constants))|].
  rewrite (proj1 (data_fields_requested entity jsondata None constants)).
  cbn [requested].
  destruct (default_fields_safe entity) as [Hmode Hfind].
  pose proof (for_each_field_outcome jsondata constants
                (default_fields entity) [] st) as H.
  rewrite Hfind in H. destruct H as (record & st' & H).
  exists record, st'.
  rewrite (data_fields_explicit _ _ _ _ Hmode). split; [exact H|].
  rewrite <- (data_fields_explicit entity _ _ _ Hmode) in H.
  destruct (explicit_record_head _ _ _ _ _ _ _ Hmode H)
    as (f0 & rest & v & tail & _ & ->).
  discriminate.
Qed.


(** ** Requesting a path twice *)

(** X4. Requesting again, at the end of an actual list of plain field
    names (no constants' key, no 'private'), a path that the list already
    has, and whose output key no other requested path shares, changes
    nothing: the same record with the same keys in the same order, and the
    same additions to the unknown-field set. *)
Theorem data_fields_repeated_path
    (entity : option string) (jsondata : odict) (fields : list string)
    (constants : option odict) (p : string) (st : unknown_set) :
  explicit_mode fields = true ->
  forallb (plain_field constants) fields = true ->
  In p fields ->
  (forall g, In g fields -> output_key g = output_key p -> g = p) ->
  data_fields entity jsondata (Some (fields ++ [p])) constants st
  = data_fields entity jsondata (Some fields) constants st.
Proof.
  intros Hmode Hplain Hp Hkey.
  assert (Hmode' : explicit_mode (fields ++ [p]) = true)
    by (destruct fields; [discriminate | exact Hmode]).
  assert (Hp_plain : plain_field constants p = true)
    by (rewrite forallb_forall in Hplain; now apply Hplain).
  assert (Hplain' : forallb (plain_field constants) (fields ++ [p]) = true)
    by (rewrite forallb_app, Hplain; simpl; now rewrite Hp_plain).
  rewrite (data_fields_explicit _ _ _ _ Hmode'),
    (data_fields_explicit _ _ _ _ Hmode).
  rewrite (for_each_plain _ _ _ Hplain'), (for_each_plain _ _ _ Hplain).
  f_equal.
  - f_equal. rewrite fold_left_app. simpl. unfold assign_resolved at 1.
    apply od_set_same_value.
    now apply (plain_record_get jsondata p fields Hkey [] (or_introl Hp)).
  - f_equal. apply set_eq. intros x.
    rewrite !unknown_in_elem, in_app_iff. simpl.
    split; [|tauto]. intros [[H|[<-|[]]] Hx]; tauto.
Qed.

Lemma data_fields_repeated_path_witness :
  data_fields (Some "repo")
    [("name", JStr "widgets"); ("owner", JDict [("login", JStr "acme")])]
    (Some (["owner.login"; "name"; "license.key"] ++ ["license.key"])) None ∅
  = data_fields (Some "repo")
      [("name", JStr "widgets"); ("owner", JDict [("login", JStr "acme")])]
      (Some ["owner.login"; "name"; "license.key"]) None ∅.
Proof.
  apply (data_fields_repeated_path (Some "repo")
           [("name", JStr "widgets");
            ("owner", JDict [("login", JStr "acme")])]
           ["owner.login"; "name"; "license.key"] None "license.key" ∅).
  - reflexivity.
  - reflexivity.
  - simpl. tauto.
  - intros g [<-|[<-|[<-|[]]]] H; solve [discriminate H | reflexivity].
Defined.


(** ** The shorthand values, key collisions included *)

Lemma special_loop_update (mode : string) (jsondata : odict) :
  od_wf jsondata ->
  forall (after before acc : odict) (st : unknown_set),
    jsondata = before ++ after ->
    for_each (special_step mode jsondata) (od_keys after) acc st
    = (Ok (od_update acc (shorthand_entries mode after)), st).
Proof.
  intros Hwf. induction after as [|[k v] after IH];
    intros before acc st Hsplit.
  - reflexivity.
  - assert (Hbefore : ~ In k (od_keys before)).
    { unfold od_wf in Hwf. rewrite Hsplit, od_keys_app in Hwf. simpl in Hwf.
      apply NoDup_remove_2 in Hwf. rewrite in_app_iff in Hwf. tauto. }
    assert (Hget : od_get jsondata k = Some v)
      by (rewrite Hsplit; now apply od_get_middle).
    cbn [od_keys map fst for_each]. unfold bind.
    rewrite (special_step_entry _ _ _ _ _ _ Hget).
    fold (od_keys after).
    rewrite (IH (before ++ [(k, v)]))
      by (rewrite <- app_assoc; exact Hsplit).
    unfold shorthand_entries. cbn [List.filter].
    destruct (selected mode (k, v)); reflexivity.
Qed.

Lemma od_keys_shorthand_entries mode jsondata :
  od_keys (shorthand_entries mode jsondata)
  = od_keys (List.filter (selected mode) jsondata).
Proof.
  unfold shorthand_entries, od_keys. rewrite map_map. apply map_ext.
  now intros [k v].
Qed.

Lemma od_wf_shorthand_entries mode jsondata :
  od_wf jsondata -> od_wf (shorthand_entries mode jsondata).
Proof.
  intros Hwf. unfold od_wf. rewrite od_keys_shorthand_entries.
  now apply od_wf_filter.
Qed.

(** X5. With fields = ['*'] or ['nourls'], for every item and constants
    (dictionaries, so with distinct keys), also when a constant's key is a
    top-level key of the item: the record starts with the constants' keys
    in their order, followed by the selected keys of the item that no
    constant has; a selected key holds the item's value (stripped of its
    own url keys under 'nourls'), so that on a key collision the item's
    value stands at the constant's position; every other key holds the
    constant.  The unknown-field set is not touched. *)
Theorem data_fields_shorthand_assignments
    (entity : option string) (jsondata : odict) (mode : string)
    (rest : list string) (constants : option odict) (st : unknown_set) :
  str_in mode ["*"; "nourls"] = true ->
  od_wf jsondata ->
  od_wf (constants_dict constants) ->
  exists record,
    data_fields entity jsondata (Some (mode :: rest)) constants st
    = (Ok record, st)
    /\ od_wf record
    /\ od_keys record
       = od_keys (constants_dict constants)
         ++ List.filter (fun k => negb (od_mem (constants_dict constants) k))
              (od_keys (List.filter (selected mode) jsondata))
    /\ (forall k v,
           In (k, v) jsondata -> selected mode (k, v) = true ->
           od_get record k = Some (snd (emitted mode (k, v))))
    /\ (forall k,
           ~ In k (od_keys (List.filter (selected mode) jsondata)) ->
           od_get record k = od_get (constants_dict constants) k).
Proof.
  intros Hmode Hj Hc.
  assert (Hmode3 : str_in mode ["*"; "urls"; "nourls"] = true).
  { unfold str_in in *. simpl in *.
    destruct (String.eqb mode "*"), (String.eqb mode "nourls"),
      (String.eqb mode "urls"); simpl in *; congruence. }
  exists (od_update (constants_dict constants)
            (shorthand_entries mode jsondata)).
  pose proof (od_wf_shorthand_entries mode jsondata Hj) as Hsel.
  split.
  { rewrite (data_fields_shorthand _ _ _ _ _ Hmode3), Hmode, andb_true_r,
      (injected_constants _ Hc).
    apply (special_loop_update mode jsondata Hj jsondata [] _ st eq_refl). }
  split; [now apply od_wf_update|].
  split.
  { rewrite (od_keys_update _ _ Hsel). now rewrite od_keys_shorthand_entries. }
  split.
  - intros k v Hin Hselected.
    rewrite (od_get_update _ _ _ Hsel).
    assert (Hentry : od_get (shorthand_entries mode jsondata) k
                     = Some (snd (emitted mode (k, v)))).
    { apply (od_get_In _ _ _ Hsel). unfold shorthand_entries.
      apply in_map_iff. exists (k, v). split; [reflexivity|].
      apply filter_In. now split. }
    now rewrite Hentry.
  - intros k Hk. rewrite (od_get_update _ _ _ Hsel).
    rewrite <- od_keys_shorthand_entries in Hk.
    apply od_get_absent in Hk. now rewrite Hk.
Qed.

Lemma data_fields_shorthand_assignments_witness :
  data_fields None
    [("name", JStr "widgets"); ("org", JStr "from the payload")]
    (Some ["*"]) (Some [("org", JStr "contoso"); ("user", JStr "octocat")]) ∅
  = (Ok [("org", JStr "from the payload"); ("user", JStr "octocat");
         ("name", JStr "widgets")], ∅).
Proof.
  destruct (data_fields_shorthand_assignments None
              [("name", JStr "widgets"); ("org", JStr "from the payload")]
              "*" []
              (Some [("org", JStr "contoso"); ("user", JStr "octocat")]) ∅)
    as (record & Hrun & _).
  - reflexivity.
  - vm_compute. repeat constructor; simpl; intuition congruence.
  - vm_compute. repeat constructor; simpl; intuition congruence.
  - rewrite Hrun. vm_compute in Hrun. injection Hrun as <-. reflexivity.
Defined.

(** ** The cache update and the API branch *)


Lemma od_update_absorbed (d c : odict) :
  (forall k v, In (k, v) c -> od_get d k = Some v) ->
  od_update d c = d.
Proof.
  unfold od_update. induction c as [|[k v] c IH]; intros H; simpl;
    [reflexivity|].
  rewrite (od_set_same_value d k v) by (apply H; now left).
  apply IH. intros k' v' Hin. apply H. now right.
Qed.

Lemma od_update_twice (d c : odict) :
  od_wf c -> od_update (od_update d c) c = od_update d c.
Proof.
  intros Hwf. apply od_update_absorbed. intros k v Hin.
  rewrite (od_get_update _ _ _ Hwf). now rewrite (od_get_In _ _ _ Hwf Hin).
Qed.

(** X6. [cache_update] never raises and keeps the number of items.  Every
    item of the payload comes out with each constant under its key: the
    constant's value replaces a value the item had under that key, keys
    the item had keep their position, the constants' other keys follow in
    the constants' order, and every other value is untouched.  Updating
    the result again with the same constants changes nothing. *)
Theorem cache_update_merges
    (payload : list odict) (constants : option odict) :
  od_wf (constants_dict constants) ->
  exists merged,
    cache_update payload constants = Ok merged
    /\ length merged = length payload
    /\ List.Forall2
         (fun item item' =>
            (od_wf item -> od_wf item')
            /\ od_keys item'
               = od_keys item
                 ++ List.filter (fun k => negb (od_mem item k))
                      (od_keys (constants_dict constants))
            /\ forall k,
                od_get item' k
                = match od_get (constants_dict constants) k with
                  | Some c => Some c
                  | None => od_get item k
                  end)
         payload merged
    /\ cache_update merged constants = Ok merged.
Proof.
  intros Hwf.
  exists (map (fun item => od_update item (constants_dict constants)) payload).
  split; [now apply cache_update_map|].
  split; [apply length_map|].
  split.
  - induction payload as [|item payload IH]; simpl; constructor; [|exact IH].
    split; [intros Hitem; now apply od_wf_update|].
    split; [now apply od_keys_update|].
    intros k. now apply od_get_update.
  - rewrite (cache_update_map _ _ Hwf), map_map. f_equal.
    apply map_ext. intros item. now apply od_update_twice.
Qed.

Lemma cache_update_merges_witness :
  cache_update
    [ [("login", JStr "octocat"); ("owner", JStr "from the payload")];
      [("login", JStr "hubot")] ]
    (Some [("owner", JStr "acme"); ("repo", JStr "widgets")])
  = Ok [ [("login", JStr "octocat"); ("owner", JStr "acme");
          ("repo", JStr "widgets")];
         [("login", JStr "hubot"); ("owner", JStr "acme");
          ("repo", JStr "widgets")] ].
Proof.
  destruct (cache_update_merges
              [ [("login", JStr "octocat");
                 ("owner", JStr "from the payload")];
                [("login", JStr "hubot")] ]
              (Some [("owner", JStr "acme"); ("repo", JStr "widgets")]))
    as (merged & Hrun & _).
  - vm_compute. repeat constructor; simpl; intuition congruence.
  - rewrite Hrun. vm_compute in Hrun. injection Hrun as <-. reflexivity.
Defined.

Lemma filter_nothing {A} (p : A -> bool) (l : list A) :
  (forall x, In x l -> p x = false) -> List.filter p l = [].
Proof.
  induction l as [|x l IH]; simpl; intros H; [reflexivity|].
  rewrite (H x (or_introl eq_refl)). apply IH. intros y Hy. apply H.
  now right.
Qed.

(** A record loop whose projector returns on every item. *)
Lemma record_loop_returns entity fields constants
    (record_of : odict -> odict) (items : list odict) :
  (forall item st,
      In item items ->
      data_fields entity item fields constants st = (Ok (record_of item), st)) ->
  forall st,
    github_data entity fields constants items st
    = (Ok (map record_of items), st).
Proof.
  intros Hitems st. unfold github_data.
  assert (Hloop : forall retval,
             for_each
               (fun retval json_item =>
                  bind (data_fields entity json_item fields constants)
                    (fun record => ret (retval ++ [record])))
               items retval st
             = (Ok (retval ++ map record_of items), st)).
  { induction items as [|item items IH]; intros retval.
    - simpl. unfold ret. now rewrite app_nil_r.
    - cbn [for_each map]. unfold bind at 1. unfold bind at 1.
      rewrite (Hitems item st (or_introl eq_refl)). unfold ret at 1.
      rewrite IH by (intros; apply Hitems; now right).
      now rewrite <- app_assoc. }
  apply (Hloop []).
Qed.

Lemma star_entries (jsondata : odict) :
  shorthand_entries "*" jsondata = jsondata.
Proof.
  unfold shorthand_entries. induction jsondata as [|[k v] d IH];
    [reflexivity|].
  cbn [List.filter selected String.eqb]. simpl. now rewrite IH.
Qed.

(** X7. On the API branch of [github_data], where [cache_update] has put
    the constants into the items before they are projected, fields = ['*']
    gives for every item the constants, with the constants' values, in
    their order, followed by the item's entries whose key no constant has:
    on a key collision the item's own value is lost, and the record has as
    many entries as the constants and the item have distinct keys. *)
Theorem github_data_from_api_star
    (entity : option string) (rest : list string) (constants : option odict)
    (payload : list odict) (st : unknown_set) :
  od_wf (constants_dict constants) ->
  Forall od_wf payload ->
  github_data_from_api entity (Some ("*" :: rest)) constants payload st
  = (Ok (map (fun item =>
                constants_dict constants
                ++ List.filter
                     (fun kv => negb (od_mem (constants_dict constants)
                                        (fst kv)))
                     item)
           payload), st).
Proof.
  intros Hc Hpayload. unfold github_data_from_api, bind, lift.
  rewrite (cache_update_map _ _ Hc).
  rewrite (record_loop_returns entity (Some ("*" :: rest)) constants
             (fun merged =>
                od_update (constants_dict constants) merged)).
  - rewrite map_map. f_equal. f_equal.
    apply map_ext_in. intros item Hitem.
    rewrite List.Forall_forall in Hpayload.
    pose proof (Hpayload item Hitem) as Hwf.
    apply od_ext.
    + apply od_wf_update. exact Hc.
    + unfold od_wf. rewrite od_keys_app.
      rewrite (od_keys_filter_key
                 (fun k => negb (od_mem (constants_dict constants) k))).
      apply List.NoDup_app; [exact Hc | now apply List.NoDup_filter |].
      intros k Hk Hk'. apply filter_In in Hk' as [_ Hk'].
      apply negb_true_iff, od_mem_false in Hk'. contradiction.
    + rewrite od_keys_update by (now apply od_wf_update).
      rewrite (od_keys_update _ _ Hc), List.filter_app, od_keys_app.
      rewrite (od_keys_filter_key
                 (fun k => negb (od_mem (constants_dict constants) k))).
      rewrite (filter_nothing
                 (fun k => negb (od_mem (constants_dict constants) k))
                 (List.filter (fun k => negb (od_mem item k))
                    (od_keys (constants_dict constants)))).
      * now rewrite app_nil_r.
      * intros k Hk. apply filter_In in Hk as [Hk _].
        apply od_mem_keys in Hk. now rewrite Hk.
    + intros k.
      rewrite od_get_update by (now apply od_wf_update).
      rewrite (od_get_update _ _ _ Hc), od_get_app.
      rewrite (od_get_filter_key
                 (fun key => negb (od_mem (constants_dict constants) key))).
      unfold od_mem. destruct (od_get (constants_dict constants) k); simpl;
        [reflexivity | now destruct (od_get item k)].
  - intros merged st0 Hin.
    apply in_map_iff in Hin as (item & <- & Hitem).
    rewrite List.Forall_forall in Hpayload.
    assert (Hwf : od_wf (od_update item (constants_dict constants)))
      by (apply od_wf_update; now apply Hpayload).
    rewrite data_fields_shorthand by reflexivity.
    replace (str_in "*" ["*"; "nourls"]) with true by reflexivity.
    rewrite andb_true_r, (injected_constants _ Hc).
    rewrite (special_loop_update "*" _ Hwf _ [] _ st0 eq_refl).
    now rewrite star_entries.
Qed.

Lemma github_data_from_api_star_witness :
  github_data_from_api None (Some ["*"])
    (Some [("org", JStr "contoso"); ("user", JStr "octocat")])
    [ [("name", JStr "widgets"); ("org", JStr "from the payload")] ] ∅
  = (Ok [ [("org", JStr "contoso"); ("user", JStr "octocat");
           ("name", JStr "widgets")] ], ∅).
Proof.
  apply (github_data_from_api_star None []
           (Some [("org", JStr "contoso"); ("user", JStr "octocat")])
           [ [("name", JStr "widgets"); ("org", JStr "from the payload")] ]
           ∅).
  - vm_compute. repeat constructor; simpl; intuition congruence.
  - repeat constructor; simpl; intuition congruence.
Defined.

(** ** Requests for actual field names on the API branch *)

Lemma segments_head (path : string) :
  exists rest, segments path = first_segment path :: rest.
Proof.
  unfold first_segment. pose proof (split_length "." path) as H.
  unfold segments. destruct (Str.split path ".") as [|k rest]; simpl in *;
    [lia | now exists rest].
Qed.

Lemma resolve_spec_same_head (item item' : odict) (path : string) :
  od_get item' (first_segment path) = od_get item (first_segment path) ->
  resolve_spec (JDict item') (firstn 5 (segments path))
  = resolve_spec (JDict item) (firstn 5 (segments path)).
Proof.
  intros H. destruct (segments_head path) as (rest & ->).
  cbn [firstn resolve_spec]. now rewrite H.
Qed.

Lemma unshadowed_head constants (item : odict) (f : string) :
  od_wf (constants_dict constants) ->
  od_mem (constants_dict constants) (first_segment f) = false ->
  od_get (od_update item (constants_dict constants)) (first_segment f)
  = od_get item (first_segment f).
Proof.
  intros Hwf Hmem. rewrite (od_get_update _ _ _ Hwf).
  unfold od_mem in Hmem.
  now destruct (od_get (constants_dict constants) (first_segment f)).
Qed.

Lemma field_step_same_head constants (item item' values : odict)
    (f : string) (st : unknown_set) :
  is_constant constants f = true
  \/ od_get item' (first_segment f) = od_get item (first_segment f) ->
  field_step item' constants values f st
  = field_step item constants values f st.
Proof.
  intros [Hc|Hhead].
  - destruct (is_constant_true_get _ _ Hc) as (c & Hget).
    now rewrite !(field_step_constant _ constants values f c st Hget).
  - unfold field_step.
    destruct (constants_given constants
              && od_mem (constants_dict constants) f); [reflexivity|].
    unfold bind. rewrite !nested_json_value_lookup.
    rewrite (resolve_spec_same_head item item' f Hhead).
    destruct (lookup_outcome f _ st) as [[v|e] st1]; [|reflexivity].
    destruct (String.eqb (Str.lower f) "private") eqn:Hp; [|reflexivity].
    assert (Hf : first_segment f = f).
    { unfold first_segment.
      now rewrite (segments_no_dot f (private_no_dot f Hp)). }
    rewrite Hf in Hhead. unfold lift, getitem. now rewrite Hhead.
Qed.

Lemma for_each_field_same_head constants (item item' : odict)
    (fields : list string) :
  (forall f, In f fields ->
             is_constant constants f = true
             \/ od_get item' (first_segment f) = od_get item (first_segment f)) ->
  forall values st,
    for_each (field_step item' constants) fields values st
    = for_each (field_step item constants) fields values st.
Proof.
  induction fields as [|f rest IH]; intros H values st; [reflexivity|].
  cbn [for_each]. unfold bind.
  rewrite (field_step_same_head constants item item' values f st)
    by (apply H; now left).
  destruct (field_step item constants values f st) as [[values1|e] st1];
    [|reflexivity].
  apply IH. intros g Hg. apply H. now right.
Qed.


Lemma record_loop_same entity fields constants
    (change : odict -> odict) (items : list odict) :
  (forall item st,
      In item items ->
      data_fields entity (change item) fields constants st
      = data_fields entity item fields constants st) ->
  forall st,
    github_data entity fields constants (map change items) st
    = github_data entity fields constants items st.
Proof.
  intros Hitems st. unfold github_data.
  assert (Hloop : forall retval st,
             for_each
               (fun retval json_item =>
                  bind (data_fields entity json_item fields constants)
                    (fun record => ret (retval ++ [record])))
               (map change items) retval st
             = for_each
                 (fun retval json_item =>
                    bind (data_fields entity json_item fields constants)
                      (fun record => ret (retval ++ [record])))
                 items retval st).
  { clear st. induction items as [|item items IH]; intros retval st;
      [reflexivity|].
    cbn [map]. rewrite !for_each_cons. cbv beta. rewrite !record_body.
    rewrite (Hitems item st (or_introl eq_refl)).
    destruct (data_fields entity item fields constants st)
      as [[record|e] st1]; [|reflexivity].
    apply IH. intros item' st' Hin. apply Hitems. now right. }
  apply Hloop.
Qed.

(** X8. On the API branch, for an actual list of field names, putting the
    constants into the items first is not visible in the result as long
    as no requested field is shadowed, that is, resolved in the item under
    a first segment that is also a key of the constants: records,
    exceptions and the unknown-field set are those of the record loop on
    the payload as it came. *)
Theorem github_data_from_api_unshadowed
    (entity : option string) (fields : list string)
    (constants : option odict) (payload : list odict) (st : unknown_set) :
  explicit_mode fields = true ->
  od_wf (constants_dict constants) ->
  forallb (fun f => negb (shadowed constants f)) fields = true ->
  github_data_from_api entity (Some fields) constants payload st
  = github_data entity (Some fields) constants payload st.
Proof.
  intros Hmode Hc Hfields. unfold github_data_from_api, bind, lift.
  rewrite (cache_update_map _ _ Hc).
  apply record_loop_same. intros item st0 _.
  rewrite !(data_fields_explicit _ _ _ _ Hmode).
  apply for_each_field_same_head. intros f Hf.
  rewrite forallb_forall in Hfields. specialize (Hfields f Hf).
  apply negb_true_iff in Hfields. unfold shadowed in Hfields.
  destruct (is_constant constants f); [now left|]. right.
  apply (unshadowed_head constants item f Hc). exact Hfields.
Qed.

Lemma github_data_from_api_unshadowed_witness :
  github_data_from_api (Some "collab") (Some ["login"; "owner"; "id"])
    (Some [("owner", JStr "acme"); ("repo", JStr "widgets")])
    [ [("login", JStr "octocat"); ("id", JInt 1)] ] ∅
  = github_data (Some "collab") (Some ["login"; "owner"; "id"])
      (Some [("owner", JStr "acme"); ("repo", JStr "widgets")])
      [ [("login", JStr "octocat"); ("id", JInt 1)] ] ∅.
Proof.
  apply (github_data_from_api_unshadowed (Some "collab")
           ["login"; "owner"; "id"]
           (Some [("owner", JStr "acme"); ("repo", JStr "widgets")])
           [ [("login", JStr "octocat"); ("id", JInt 1)] ] ∅).
  - reflexivity.
  - vm_compute. repeat constructor; simpl; intuition congruence.
  - reflexivity.
Defined.

Lemma dotted_not_shorthand (path : string) :
  1 <= Str.count path "." -> explicit_mode [path] = true.
Proof.
  intros H. unfold explicit_mode, str_in. simpl.
  destruct (String.eqb_spec path "*") as [->|_]; [simpl in H; lia|].
  destruct (String.eqb_spec path "urls") as [->|_]; [simpl in H; lia|].
  destruct (String.eqb_spec path "nourls") as [->|_]; [simpl in H; lia|].
  reflexivity.
Qed.

Lemma dotted_not_private (path : string) :
  1 <= Str.count path "." -> is_private path = false.
Proof.
  intros H. destruct (is_private path) eqn:Hp; [|reflexivity].
  apply private_no_dot in Hp. lia.
Qed.

(** X9. On the API branch a constant shadows what the item holds under the
    same key: a requested dotted path whose first segment is a key of the
    constants, with a constant that is not a mapping, resolves in no item,
    whatever the payload holds there.  Requested alone it gives, for every
    item, the record with [None] under its output key, and the path is
    added to the unknown-field set as soon as there is an item. *)
Theorem github_data_from_api_shadowed
    (entity : option string) (constants : option odict) (path : string)
    (c : json) (payload : list odict) (st : unknown_set) :
  od_wf (constants_dict constants) ->
  1 <= Str.count path "." ->
  is_constant constants path = false ->
  od_get (constants_dict constants) (first_segment path) = Some c ->
  (forall d, c <> JDict d) ->
  exists st',
    github_data_from_api entity (Some [path]) constants payload st
    = (Ok (map (fun _ => [(output_key path, JNull)]) payload), st')
    /\ (payload <> [] -> st' = {[ path ]} ∪ st).
Proof.
  intros Hwf Hdot Hconst Hget Hc.
  assert (Hmode : explicit_mode [path] = true)
    by now apply dotted_not_shorthand.
  assert (Hplain : forallb (plain_field constants) [path] = true).
  { simpl. unfold plain_field.
    now rewrite Hconst, (dotted_not_private path Hdot). }
  assert (Hnone : forall item,
             resolves (od_update item (constants_dict constants)) path
             = false).
  { intros item. unfold resolves.
    destruct (segments_head path) as (rest & Hseg).
    pose proof (split_length "." path) as Hlen. fold (segments path) in Hlen.
    rewrite Hseg in Hlen |- *.
    destruct rest as [|k1 rest]; [simpl in Hlen; lia|].
    cbn [firstn resolve_spec].
    rewrite (od_get_update _ _ _ Hwf), Hget.
    destruct c; try reflexivity. exfalso. now apply (Hc entries). }
  unfold github_data_from_api, bind, lift.
  rewrite (cache_update_map _ _ Hwf).
  rewrite (github_data_plain _ _ _ Hmode Hplain).
  eexists. split.
  - f_equal. f_equal. rewrite map_map. apply map_ext. intros item.
    unfold plain_record. simpl. unfold assign_resolved. simpl.
    now rewrite (resolved_unresolved _ _ (Hnone item)).
  - intros Hne. f_equal. apply unknown_in_batch_single.
    + destruct payload; [contradiction | discriminate].
    + intros merged Hin. apply in_map_iff in Hin as (item & <- & _).
      apply Hnone.
Qed.

Lemma github_data_from_api_shadowed_witness :
  github_data_from_api None (Some ["owner.login"])
    (Some [("owner", JStr "acme")])
    [ [("owner", JDict [("login", JStr "octocat")])] ] ∅
  = (Ok [ [("owner_login", JNull)] ], {[ "owner.login" ]} ∪ ∅)
  /\ github_data None (Some ["owner.login"])
       (Some [("owner", JStr "acme")])
       [ [("owner", JDict [("login", JStr "octocat")])] ] ∅
     = (Ok [ [("owner_login", JStr "octocat")] ], ∅).
Proof.
  split; [|reflexivity].
  destruct (github_data_from_api_shadowed None
              (Some [("owner", JStr "acme")]) "owner.login" (JStr "acme")
              [ [("owner", JDict [("login", JStr "octocat")])] ] ∅)
    as (st' & Hrun & Hst).
  - vm_compute. repeat constructor; simpl; intuition congruence.
  - vm_compute. lia.
  - reflexivity.
  - reflexivity.
  - discriminate.
  - rewrite Hrun, (Hst ltac:(discriminate)). reflexivity.
Defined.


(** ** Names of cache files *)

Section StringOps.

Lemma append_cons (x : ascii) (a b : string) :
  String x a +:+ b = String x (a +:+ b).
Proof. reflexivity. Qed.

Lemma append_nil (b : string) : "" +:+ b = b.
Proof. reflexivity. Qed.

Lemma append_assoc (a b c : string) : (a +:+ b) +:+ c = a +:+ b +:+ c.
Proof.
  induction a as [|x a IH]; [reflexivity|].
  rewrite !append_cons. now rewrite IH.
Qed.

Lemma append_cancel_l (a x y : string) : a +:+ x = a +:+ y -> x = y.
Proof.
  induction a as [|c a IH]; [auto|]. rewrite !append_cons.
  intros [= H]. now apply IH.
Qed.

Lemma count_append (a b : string) (c : ascii) :
  Str.count (a +:+ b) c = Str.count a c + Str.count b c.
Proof.
  induction a as [|x a IH]; [reflexivity|].
  rewrite append_cons. simpl. rewrite IH. lia.
Qed.

Lemma replace_append (a b : string) (c d : ascii) :
  Str.replace (a +:+ b) c d = Str.replace a c d +:+ Str.replace b c d.
Proof.
  induction a as [|x a IH]; [reflexivity|].
  rewrite append_cons. simpl. now rewrite IH, append_cons.
Qed.

Lemma count_replace_other (s : string) (c d x : ascii) :
  c <> x -> d <> x -> Str.count (Str.replace s c d) x = Str.count s x.
Proof.
  intros Hc Hd. induction s as [|a s IH]; simpl; [reflexivity|].
  rewrite IH. f_equal.
  destruct (Ascii.eqb_spec a c) as [->|Hac]; [|reflexivity].
  destruct (Ascii.eqb_spec d x) as [E|_]; [contradiction|].
  destruct (Ascii.eqb_spec c x) as [E|_]; [contradiction | reflexivity].
Qed.

Lemma count_replace_gone (s : string) (c d : ascii) :
  c <> d -> Str.count (Str.replace s c d) c = 0.
Proof.
  intros Hcd. induction s as [|a s IH]; simpl; [reflexivity|].
  rewrite IH. destruct (Ascii.eqb_spec a c) as [->|Hac].
  - destruct (Ascii.eqb_spec d c) as [E|_]; [|reflexivity].
    symmetry in E. contradiction.
  - destruct (Ascii.eqb_spec a c) as [E|_]; [contradiction | reflexivity].
Qed.

Lemma count_lstrip (s : string) (c x : ascii) :
  Str.count (StrOps.lstrip s c) x <= Str.count s x.
Proof.
  induction s as [|a s IH]; simpl; [lia|].
  destruct (Ascii.eqb a c); simpl; lia.
Qed.

Lemma count_rstrip (s : string) (c x : ascii) :
  Str.count (StrOps.rstrip s c) x <= Str.count s x.
Proof.
  induction s as [|a s IH]; simpl; [lia|].
  destruct (StrOps.rstrip s c) as [|b kept].
  - destruct (Ascii.eqb a c); simpl in *; lia.
  - simpl in *. lia.
Qed.

Lemma lstrip_stop (a b : string) (c stop : ascii) :
  stop <> c ->
  StrOps.lstrip (a +:+ String stop b) c
  = StrOps.lstrip a c +:+ String stop b.
Proof.
  intros Hne. induction a as [|x a IH].
  - rewrite append_nil. simpl.
    destruct (Ascii.eqb_spec stop c); [contradiction | reflexivity].
  - rewrite append_cons. simpl.
    destruct (Ascii.eqb x c); [exact IH | reflexivity].
Qed.

Lemma rstrip_stop (a b : string) (c stop : ascii) :
  stop <> c ->
  StrOps.rstrip (a +:+ String stop b) c
  = a +:+ String stop (StrOps.rstrip b c).
Proof.
  intros Hne. induction a as [|x a IH].
  - rewrite !append_nil. simpl. destruct (StrOps.rstrip b c); [|reflexivity].
    destruct (Ascii.eqb_spec stop c); [contradiction | reflexivity].
  - rewrite !append_cons. simpl. rewrite IH.
    destruct a; reflexivity.
Qed.

Lemma contains_before (s : string) (c : ascii) :
  StrOps.contains s c = true ->
  StrOps.slice_to s (StrOps.find s c) = before s c.
Proof.
  unfold StrOps.slice_to, StrOps.slice_bound.
  assert (H : StrOps.contains s c = true ->
              StrOps.find s c = Z.of_nat (String.length (before s c))
              /\ StrOps.take (String.length (before s c)) s = before s c
              /\ String.length (before s c) <= String.length s).
  { induction s as [|a s IH]; simpl; [discriminate|].
    destruct (Ascii.eqb a c); simpl.
    - intros _. split; [reflexivity|]. split; [reflexivity | lia].
    - intros Hs. destruct (IH Hs) as (Hfind & Htake & Hlen).
      rewrite Hfind, Htake.
      destruct (Z.ltb_spec (Z.of_nat (String.length (before s c))) 0);
        [lia|].
      split; [lia|]. split; [reflexivity | lia]. }
  intros Hs. destruct (H Hs) as (Hfind & Htake & Hlen).
  rewrite Hfind.
  destruct (Z.ltb_spec (Z.of_nat (String.length (before s c))) 0); [lia|].
  rewrite Nat2Z.id, Nat.min_l by exact Hlen. exact Htake.
Qed.

Lemma contains_false_count (s : string) (c : ascii) :
  StrOps.contains s c = false -> Str.count s c = 0.
Proof.
  induction s as [|a s IH]; simpl; [reflexivity|].
  destruct (Ascii.eqb a c); simpl; [discriminate|]. exact IH.
Qed.

Lemma count_before (s : string) (c x : ascii) :
  Str.count (before s c) c = 0 /\ Str.count (before s c) x <= Str.count s x.
Proof.
  induction s as [|a s IH]; simpl; [lia|].
  destruct (Ascii.eqb a c) eqn:E; simpl; [lia|]. rewrite E. lia.
Qed.

Lemma before_stop (a b : string) (c : ascii) :
  Str.count a c = 0 -> before (a +:+ String c b) c = a.
Proof.
  induction a as [|x a IH].
  - rewrite append_nil. simpl. now rewrite Ascii.eqb_refl.
  - rewrite append_cons. simpl.
    destruct (Ascii.eqb x c); [discriminate|]. simpl. intros H.
    now rewrite IH.
Qed.

Lemma contains_stop (a b : string) (c : ascii) :
  StrOps.contains (a +:+ String c b) c = true.
Proof.
  induction a as [|x a IH].
  - rewrite append_nil. simpl. now rewrite Ascii.eqb_refl.
  - rewrite append_cons. simpl. rewrite IH. apply orb_true_r.
Qed.

End StringOps.

Section CacheNames.

Variable path_join : string -> string -> string.
Variable source_folder : string.
Variables (current : auth_settings) (auth : option string).

Lemma cache_name_unfold (endpoint : string) :
  cache_name current endpoint auth
  = let filename :=
      cache_user current auth +:+ "_"
      +:+ StrOps.strip (Str.replace endpoint "/" "-") "-" in
    if StrOps.contains filename "?" then before filename "?" else filename.
Proof.
  unfold cache_name, cache_user. cbv zeta.
  destruct (StrOps.contains _ "?") eqn:E; [|reflexivity].
  now apply contains_before.
Qed.

(** The name for an endpoint with a query string. *)
Lemma cache_name_query (p q : string) :
  Str.count (cache_user current auth) "?" = 0 ->
  Str.count p "?" = 0 ->
  cache_name current (p +:+ "?" +:+ q) auth
  = cache_user current auth +:+ "_"
    +:+ StrOps.lstrip (Str.replace p "/" "-") "-".
Proof.
  intros Huser Hp. rewrite cache_name_unfold. cbv zeta.
  assert (Hrep : Str.replace (p +:+ "?" +:+ q) "/" "-"
                 = Str.replace p "/" "-"
                   +:+ String "?" (Str.replace q "/" "-"))
    by (rewrite replace_append; reflexivity).
  rewrite Hrep. unfold StrOps.strip.
  rewrite lstrip_stop, rstrip_stop by discriminate.
  rewrite <- !append_assoc.
  rewrite contains_stop. apply before_stop.
  rewrite !count_append.
  pose proof (count_lstrip (Str.replace p "/" "-") "-" "?") as Hle.
  rewrite count_replace_other in Hle by discriminate.
  simpl. lia.
Qed.

End CacheNames.

(** X10. [cache_filename] does not look at the query string: for a user
    name and an endpoint path without a question mark, the name of the
    cache file is the user name, an underscore, and the path with its
    slashes turned into dashes and the leading dashes removed, whatever
    follows the question mark.  Two requests that differ in their
    parameters only share one cache file. *)
Theorem cache_filename_ignores_query
    (path_join : string -> string -> string) (source_folder : string)
    (current : auth_settings) (auth : option string) (p q1 q2 : string) :
  Str.count (cache_user current auth) "?" = 0 ->
  Str.count p "?" = 0 ->
  cache_name current (p +:+ "?" +:+ q1) auth
  = cache_user current auth +:+ "_"
    +:+ StrOps.lstrip (Str.replace p "/" "-") "-"
  /\ cache_filename path_join source_folder current (p +:+ "?" +:+ q1) auth
     = cache_filename path_join source_folder current (p +:+ "?" +:+ q2) auth.
Proof.
  intros Huser Hp. split; [now apply cache_name_query|].
  unfold cache_filename. now rewrite !cache_name_query.
Qed.

Lemma cache_filename_ignores_query_witness :
  cache_name {| username := Some "octocat"; accesstoken := None |}
    ("/orgs/contoso/repos" +:+ "?" +:+ "per_page=100") None
  = "octocat_orgs-contoso-repos"
  /\ cache_filename (fun folder name => folder +:+ "/" +:+ name) "/opt/gitdata"
       {| username := Some "octocat"; accesstoken := None |}
       ("/orgs/contoso/repos" +:+ "?" +:+ "per_page=100") None
     = cache_filename (fun folder name => folder +:+ "/" +:+ name)
         "/opt/gitdata" {| username := Some "octocat"; accesstoken := None |}
         ("/orgs/contoso/repos" +:+ "?" +:+ "per_page=30&page=2") None.
Proof.
  apply (cache_filename_ignores_query
           (fun folder name => folder +:+ "/" +:+ name) "/opt/gitdata"
           {| username := Some "octocat"; accesstoken := None |} None
           "/orgs/contoso/repos" "per_page=100" "per_page=30&page=2");
    reflexivity.
Defined.

Lemma members_endpoint_split (o : string) (audit2fa adminonly : bool) :
  "/orgs/" +:+ o +:+ "/members?per_page=100"
  +:+ (if audit2fa then "&filter=2fa_disabled" else "")
  +:+ (if adminonly then "&role=admin" else "")
  = ("/orgs/" +:+ o +:+ "/members") +:+ "?"
    +:+ ("per_page=100"
         +:+ (if audit2fa then "&filter=2fa_disabled" else "")
         +:+ (if adminonly then "&role=admin" else "")).
Proof. rewrite !append_assoc. reflexivity. Qed.

Lemma collabs_endpoint_split (owner repo : string) (audit2fa : bool) :
  collabs_endpoint owner repo audit2fa
  = ("/repos/" +:+ owner +:+ "/" +:+ repo +:+ "/collaborators") +:+ "?"
    +:+ ("per_page=100"
         +:+ (if audit2fa then "&filter=2fa_disabled" else "")).
Proof. unfold collabs_endpoint. rewrite !append_assoc. reflexivity. Qed.

(** X11. The cache does not tell a filtered request from an unfiltered
    one.  For a user name, an organization, an owner and a repository
    without a question mark: the endpoints [membersget] builds for one
    organization (or team) with different [audit2fa] and [adminonly]
    options have the same cache file, and so have the endpoints of the
    collabs command with and without [audit2fa]. *)
Theorem cache_filename_ignores_filters
    (path_join : string -> string -> string) (source_folder : string)
    (current : auth_settings) (auth : option string) :
  Str.count (cache_user current auth) "?" = 0 ->
  (forall org team a1 d1 a2 d2 e1 e2,
      (forall o, org = Some o -> Str.count o "?" = 0) ->
      membersget_endpoint org team a1 d1 = Ok e1 ->
      membersget_endpoint org team a2 d2 = Ok e2 ->
      cache_filename path_join source_folder current e1 auth
      = cache_filename path_join source_folder current e2 auth)
  /\ (forall owner repo,
         Str.count owner "?" = 0 -> Str.count repo "?" = 0 ->
         cache_filename path_join source_folder current
           (collabs_endpoint owner repo true) auth
         = cache_filename path_join source_folder current
             (collabs_endpoint owner repo false) auth).
Proof.
  intros Huser. split.
  - intros org team a1 d1 a2 d2 e1 e2 Horg H1 H2.
    unfold membersget_endpoint in H1, H2.
    destruct (str_given team); [congruence|].
    destruct org as [o|]; [|discriminate].
    injection H1 as <-. injection H2 as <-.
    rewrite !members_endpoint_split. unfold cache_filename.
    rewrite !(cache_name_query current auth) by
      (try exact Huser; rewrite !count_append, (Horg o eq_refl);
       reflexivity).
    reflexivity.
  - intros owner repo Howner Hrepo.
    rewrite !collabs_endpoint_split. unfold cache_filename.
    rewrite !(cache_name_query current auth) by
      (try exact Huser; rewrite !count_append, Howner, Hrepo; reflexivity).
    reflexivity.
Qed.

Lemma cache_filename_ignores_filters_witness :
  membersget_endpoint (Some "contoso") None true true
  = Ok "/orgs/contoso/members?per_page=100&filter=2fa_disabled&role=admin"
  /\ membersget_endpoint (Some "contoso") None false false
     = Ok "/orgs/contoso/members?per_page=100"
  /\ cache_filename (fun folder name => folder +:+ "/" +:+ name) "/opt/gitdata"
       {| username := Some "octocat"; accesstoken := None |}
       "/orgs/contoso/members?per_page=100&filter=2fa_disabled&role=admin"
       None
     = cache_filename (fun folder name => folder +:+ "/" +:+ name)
         "/opt/gitdata" {| username := Some "octocat"; accesstoken := None |}
         "/orgs/contoso/members?per_page=100" None.
Proof.
  split; [reflexivity|]. split; [reflexivity|].
  apply (proj1 (cache_filename_ignores_filters
                  (fun folder name => folder +:+ "/" +:+ name) "/opt/gitdata"
                  {| username := Some "octocat"; accesstoken := None |} None
                  eq_refl)
           (Some "contoso") None true true false false);
    try reflexivity.
  intros o H. injection H as <-. reflexivity.
Defined.

(** X12. The name of a cache file does not tell '/' from '-' in the
    endpoint, so two different repositories can share one cache file: for
    every user and all names a, b, c, the collabs endpoints for owner
    a-b with repository c and for owner a with repository b-c are
    different endpoints with the same cache file. *)
Theorem cache_filename_dash_collision
    (path_join : string -> string -> string) (source_folder : string)
    (current : auth_settings) (auth : option string)
    (a b c : string) (audit2fa : bool) :
  collabs_endpoint (a +:+ "-" +:+ b) c audit2fa
  <> collabs_endpoint a (b +:+ "-" +:+ c) audit2fa
  /\ cache_filename path_join source_folder current
       (collabs_endpoint (a +:+ "-" +:+ b) c audit2fa) auth
     = cache_filename path_join source_folder current
         (collabs_endpoint a (b +:+ "-" +:+ c) audit2fa) auth.
Proof.
  split.
  - unfold collabs_endpoint. rewrite !append_assoc. intros H.
    apply (append_cancel_l "/repos/") in H. apply append_cancel_l in H.
    discriminate H.
  - unfold cache_filename, cache_name, collabs_endpoint.
    assert (Hsame :
              Str.replace
                ("/repos/" +:+ (a +:+ "-" +:+ b) +:+ "/" +:+ c
                 +:+ "/collaborators?per_page=100"
                 +:+ (if audit2fa then "&filter=2fa_disabled" else ""))
                "/" "-"
              = Str.replace
                  ("/repos/" +:+ a +:+ "/" +:+ (b +:+ "-" +:+ c)
                   +:+ "/collaborators?per_page=100"
                   +:+ (if audit2fa then "&filter=2fa_disabled" else ""))
                  "/" "-").
    { rewrite !replace_append, !append_assoc. reflexivity. }
    now rewrite Hsame.
Qed.

(** X13. The name [cache_filename] builds never contains a question mark,
    and the endpoint contributes no slash to it: when the user name has no
    slash the name has none, so the file lies directly in the gh_cache
    folder. *)
Theorem cache_name_characters
    (current : auth_settings) (endpoint : string) (auth : option string) :
  Str.count (cache_name current endpoint auth) "?" = 0
  /\ (Str.count (cache_user current auth) "/" = 0 ->
      Str.count (cache_name current endpoint auth) "/" = 0).
Proof.
  rewrite cache_name_unfold. cbv zeta.
  set (filename := cache_user current auth +:+ "_"
                   +:+ StrOps.strip (Str.replace endpoint "/" "-") "-").
  assert (Hslash : Str.count (cache_user current auth) "/" = 0 ->
                   Str.count filename "/" = 0).
  { intros Huser. unfold filename. rewrite !count_append, Huser.
    unfold StrOps.strip.
    pose proof (count_rstrip
                  (StrOps.lstrip (Str.replace endpoint "/" "-") "-")
                  "-" "/") as H1.
    pose proof (count_lstrip (Str.replace endpoint "/" "-") "-" "/") as H2.
    rewrite count_replace_gone in H2 by discriminate.
    simpl. lia. }
  destruct (StrOps.contains filename "?") eqn:E.
  - split; [exact (proj1 (count_before filename "?" "/"))|].
    intros Huser. pose proof (proj2 (count_before filename "?" "/")) as H.
    specialize (Hslash Huser). lia.
  - split; [now apply contains_false_count | exact Hslash].
Qed.

Lemma cache_name_characters_witness :
  Str.count
    (cache_name {| username := None; accesstoken := None |}
       "/repos/contoso/widgets/commits?per_page=100" (Some "octocat")) "/"
  = 0.
Proof.
  apply (proj2 (cache_name_characters
                  {| username := None; accesstoken := None |}
                  "/repos/contoso/widgets/commits?per_page=100"
                  (Some "octocat"))).
  reflexivity.
Defined.

(** ** The fields option *)

Section SplitJoin.

Variable c : ascii.

Lemma split_not_nil (s : string) : Str.split s c <> [].
Proof.
  pose proof (split_length c s) as H. destruct (Str.split s c);
    [simpl in H; lia | discriminate].
Qed.

Lemma join_cons (sep x y : string) (l : list string) :
  StrOps.join sep (x :: y :: l) = x +:+ sep +:+ StrOps.join sep (y :: l).
Proof. reflexivity. Qed.

Lemma join_split (s : string) :
  StrOps.join (String c "") (Str.split s c) = s.
Proof.
  induction s as [|a s IH]; [reflexivity|].
  pose proof (split_not_nil s) as Hne. simpl.
  destruct (Str.split s c) as [|piece pieces]; [contradiction|].
  destruct (Ascii.eqb_spec a c) as [->|Hac].
  - rewrite join_cons, IH. reflexivity.
  - destruct pieces as [|piece' pieces].
    + simpl in *. now rewrite IH.
    + rewrite join_cons in *. rewrite append_cons. now rewrite IH.
Qed.

Lemma split_append_sep (x rest : string) :
  Str.count x c = 0 ->
  Str.split (x +:+ String c rest) c = x :: Str.split rest c.
Proof.
  induction x as [|a x IH].
  - intros _. rewrite append_nil. simpl. now rewrite Ascii.eqb_refl.
  - rewrite append_cons. simpl.
    destruct (Ascii.eqb a c); [discriminate|]. simpl. intros H.
    now rewrite (IH H).
Qed.

Lemma split_join (l : list string) :
  l <> [] ->
  (forall x, In x l -> Str.count x c = 0) ->
  Str.split (StrOps.join (String c "") l) c = l.
Proof.
  induction l as [|x l IH]; [contradiction|]. intros _ Hl.
  destruct l as [|y l].
  - simpl. apply split_without_separator. apply Hl. now left.
  - rewrite join_cons, append_cons, append_nil.
    rewrite split_append_sep by (apply Hl; now left).
    f_equal. apply IH; [discriminate|]. intros z Hz. apply Hl. now right.
Qed.

End SplitJoin.

(** X14. Reading the --fields option and joining field names with '/' are
    inverse to each other.  The names read from a non-empty option, joined
    with '/', give the option back; and a non-empty list of names without
    a slash, joined with '/' into a non-empty string, is read back as the
    same list.  An empty option is read as no field list. *)
Theorem fldnames_round_trip :
  fldnames "" = None
  /\ (forall fields l,
         fldnames fields = Some l -> l <> [] /\ StrOps.join "/" l = fields)
  /\ (forall l,
         l <> [] ->
         (forall x, In x l -> Str.count x "/" = 0) ->
         StrOps.join "/" l <> "" ->
         fldnames (StrOps.join "/" l) = Some l).
Proof.
  split; [reflexivity|]. split.
  - intros fields l H. destruct fields as [|a s]; [discriminate|].
    injection H as <-.
    split; [exact (split_not_nil "/" (String a s))
           | exact (join_split "/" (String a s))].
  - intros l Hne Hl Hjoin. unfold fldnames.
    destruct (StrOps.join "/" l) eqn:E; [contradiction|].
    rewrite <- E. f_equal. now apply split_join.
Qed.

Lemma fldnames_round_trip_witness :
  StrOps.join "/" ["commit.committer.date"; "sha"]
  = "commit.committer.date/sha"
  /\ fldnames (StrOps.join "/" ["commit.committer.date"; "sha"])
     = Some ["commit.committer.date"; "sha"].
Proof.
  split.
  - apply (proj1 (proj2 fldnames_round_trip) "commit.committer.date/sha"
             ["commit.committer.date"; "sha"] eq_refl).
  - apply (proj2 (proj2 fldnames_round_trip)
             ["commit.committer.date"; "sha"]).
    + discriminate.
    + intros x [<-|[<-|[]]]; reflexivity.
    + discriminate.
Defined.

(** X15. For every entity name, the default fields as --listfields shows
    them, passed back through --fields, are read as exactly the default
    field list; the projector then does what it does with no field list
    at all. *)
Theorem default_fields_shown_read_back
    (entity : option string) (jsondata : odict) (constants : option odict) :
  fldnames (default_fields_shown entity) = Some (default_fields entity)
  /\ data_fields entity jsondata (fldnames (default_fields_shown entity))
       constants
     = data_fields entity jsondata None constants.
Proof.
  assert (H : fldnames (default_fields_shown entity)
              = Some (default_fields entity)).
  { unfold default_fields_shown.
    destruct entity as [e|]; unfold default_fields;
      repeat (match goal with
              | |- context [if String.eqb e ?x then _ else _] =>
                  destruct (String.eqb e x)
              end); reflexivity. }
  split; [exact H|]. rewrite H.
  rewrite (proj1 (data_fields_requested entity jsondata None constants)).
  rewrite (proj1 (data_fields_requested entity jsondata
                    (Some (default_fields entity)) constants)).
  f_equal. f_equal. cbn [requested].
  destruct (default_fields entity); reflexivity.
Qed.

(** ** Access tokens and authentication *)

Section TakeDrop.

Lemma length_append (a b : string) :
  String.length (a +:+ b) = String.length a + String.length b.
Proof.
  induction a as [|x a IH]; [reflexivity|].
  rewrite append_cons. simpl. now rewrite IH.
Qed.

Lemma length_take (n : nat) (s : string) :
  String.length (StrOps.take n s) = Nat.min n (String.length s).
Proof.
  revert s. induction n as [|n IH]; intros [|a s]; simpl; try reflexivity.
  now rewrite IH.
Qed.

Lemma length_drop (n : nat) (s : string) :
  String.length (StrOps.drop n s) = String.length s - n.
Proof.
  revert s. induction n as [|n IH]; intros [|a s]; simpl; try reflexivity.
  apply IH.
Qed.

Lemma take_all (n : nat) (s : string) :
  String.length s <= n -> StrOps.take n s = s.
Proof.
  revert s. induction n as [|n IH]; intros [|a s]; simpl; try reflexivity.
  - lia.
  - intros H. rewrite IH; [reflexivity | lia].
Qed.

End TakeDrop.

Lemma take_min (n : nat) (s : string) :
  StrOps.take (Nat.min n (String.length s)) s = StrOps.take n s.
Proof.
  revert s. induction n as [|n IH]; intros [|a s]; simpl; try reflexivity.
  now rewrite IH.
Qed.

Lemma slice_first_two (s : string) : StrOps.slice s 0 2 = StrOps.take 2 s.
Proof.
  unfold StrOps.slice, StrOps.slice_bound.
  change (0 <? 0)%Z with false. change (2 <? 0)%Z with false.
  change (Z.to_nat 0) with 0. change (Z.to_nat 2) with 2.
  cbv iota. rewrite Nat.min_0_l, Nat.sub_0_r.
  change (StrOps.drop 0 s) with s. apply take_min.
Qed.

Lemma slice_last_two (s : string) :
  StrOps.slice_from s (-2) = StrOps.drop (String.length s - 2) s.
Proof.
  unfold StrOps.slice_from, StrOps.slice_bound.
  change (-2 <? 0)%Z with true. cbv iota. f_equal. lia.
Qed.

Lemma token_abbr_slices (s : string) :
  s <> "" ->
  token_abbr (Some s)
  = StrOps.take 2 s +:+ "..." +:+ StrOps.drop (String.length s - 2) s.
Proof.
  intros Hne. destruct s as [|a s]; [contradiction|].
  unfold token_abbr. now rewrite slice_first_two, slice_last_two.
Qed.

(** X16. [token_abbr] shows at most the first two and the last two
    characters of a token: without a token the result is '*none*'; for
    a non-empty (ASCII) token it is the first two characters, three dots
    and the last two characters, at most seven characters long, so that
    tokens of four characters or more that agree on their first two and
    last two characters are displayed alike.  A token of one or two
    characters is displayed in full, twice. *)
Theorem token_abbr_shows_ends (s : string) :
  (token_abbr None = "*none*" /\ token_abbr (Some "") = "*none*")
  /\ (s <> "" -> StrOps.ascii_only s = true ->
      token_abbr (Some s)
      = StrOps.take 2 s +:+ "..." +:+ StrOps.drop (String.length s - 2) s
      /\ String.length (token_abbr (Some s)) <= 7
      /\ (forall s',
             4 <= String.length s' -> 4 <= String.length s ->
             StrOps.take 2 s' = StrOps.take 2 s ->
             StrOps.drop (String.length s' - 2) s'
             = StrOps.drop (String.length s - 2) s ->
             token_abbr (Some s') = token_abbr (Some s))
      /\ (String.length s <= 2 ->
          token_abbr (Some s) = s +:+ "..." +:+ s)).
Proof.
  split; [split; reflexivity|].
  intros Hne _. split; [now apply token_abbr_slices|].
  split.
  { rewrite (token_abbr_slices s Hne), !length_append, length_take,
      length_drop. change (String.length "...") with 3. lia. }
  split.
  - intros s' Hlen' Hlen Htake Hdrop.
    rewrite (token_abbr_slices s Hne).
    rewrite (token_abbr_slices s')
      by (intros ->; simpl in Hlen'; lia).
    now rewrite Htake, Hdrop.
  - intros Hlen. rewrite (token_abbr_slices s Hne).
    rewrite (take_all 2 s Hlen).
    replace (String.length s - 2) with 0 by lia.
    now destruct s.
Qed.

Lemma token_abbr_shows_ends_witness :
  token_abbr (Some "0123456789abcdef") = "01...ef"
  /\ token_abbr (Some "ab") = "ab...ab".
Proof.
  split.
  - apply (proj1 (proj2 (token_abbr_shows_ends "0123456789abcdef")
                    ltac:(discriminate) eq_refl)).
  - apply (proj2 (proj2 (proj2 (proj2 (token_abbr_shows_ends "ab")
                                  ltac:(discriminate) eq_refl)))).
    simpl. lia.
Defined.

(** X17. Configuring a user name alone, [auth_config({'username': name})],
    replaces both settings whatever they were: the user name becomes
    [name] and the token becomes the stored token of that user, or [None]
    for an empty name, so a token configured before never stays with
    another user.  The dictionary returned shows the new settings; a
    message is echoed exactly when a non-empty name has no stored token.
    Afterwards [auth_user] gives credentials exactly for a non-empty name,
    and cache files are named after that name, or after '_anon'.  With no
    argument, or an empty dictionary, nothing changes. *)
Theorem auth_config_user
    (stored_pat : string -> option string) (current : auth_settings)
    (name : option string) (other_keys : bool) :
  let user := match name with Some u => u | None => "" end in
  let result :=
    auth_config stored_pat
      (Some {| req_username := Some name; req_accesstoken := None;
               req_other_keys := other_keys |}) current in
  let updated := fst (fst result) in
  snd result = updated
  /\ username updated = name
  /\ accesstoken updated = (if str_given name then stored_pat user else None)
  /\ snd (fst result)
     = (if str_given name && negb (str_given (stored_pat user))
        then ["Unknown authentication username: " +:+ user] else [])
  /\ auth_user updated
     = (if str_given name then Some (name, stored_pat user) else None)
  /\ cache_user updated None = (if str_given name then user else "_anon")
  /\ auth_config stored_pat None current = (current, [], current)
  /\ auth_config stored_pat
       (Some {| req_username := None; req_accesstoken := None;
                req_other_keys := false |}) current
     = (current, [], current).
Proof.
  cbv zeta. unfold auth_config, auth_user, cache_user. cbn [req_username req_accesstoken req_other_keys].
  destruct name as [[|a u]|]; cbn [str_given].
  - repeat split; reflexivity.
  - destruct (str_given (stored_pat (String a u))) eqn:Hpat;
      repeat split; reflexivity.
  - repeat split; reflexivity.
Qed.


(** ** The link data of ghaudit *)

Section LinkDataFacts.

Variable py_lower : string -> string.
Variable py_strip : string -> string.

Lemma first_field (line : string) :
  exists name rest, Str.split line "," = name :: rest.
Proof.
  pose proof (split_not_nil "," line) as H.
  destruct (Str.split line ",") as [|name rest]; [contradiction|].
  now exists name, rest.
Qed.

Lemma second_field (line : string) :
  if has_two_fields line
  then exists name email rest, Str.split line "," = name :: email :: rest
  else exists name, Str.split line "," = [name].
Proof.
  unfold has_two_fields. pose proof (split_length "," line) as H.
  destruct (Nat.leb_spec 1 (Str.count line ",")) as [Hle|Hlt];
    destruct (Str.split line ",") as [|name [|email rest]]; simpl in H;
    try lia; eauto.
Qed.

Lemma linked_names_map (lines : list string) :
  linked_names py_lower lines
  = Ok (map (fun line => py_lower (hd "" (Str.split line ",")))
          (data_lines lines)).
Proof.
  unfold linked_names. induction (data_lines lines) as [|line rest IH];
    [reflexivity|].
  cbn [res_map map]. rewrite IH.
  destruct (first_field line) as (name & fields & ->). reflexivity.
Qed.

Lemma sd_get_set (d : sdict) (k v k' : string) :
  sd_get (sd_set d k v) k'
  = if String.eqb k k' then Some v else sd_get d k'.
Proof.
  induction d as [|[k0 v0] d IH]; simpl.
  - reflexivity.
  - destruct (String.eqb_spec k0 k) as [->|Hne]; simpl.
    + now destruct (String.eqb k k').
    + rewrite IH. destruct (String.eqb_spec k0 k') as [->|Hne'];
        [|reflexivity].
      destruct (String.eqb_spec k k'); [congruence | reflexivity].
Qed.

Lemma load_emails_all (lines : list string) :
  forallb has_two_fields lines = true ->
  forall emails, exists d,
    load_emails py_lower py_strip lines emails = (Ok tt, d)
    /\ forall k,
        sd_get d k <> None
        <-> sd_get emails k <> None
            \/ In k (map (fun line => py_lower (hd "" (Str.split line ",")))
                       lines).
Proof.
  induction lines as [|line rest IH]; intros Hall emails.
  - exists emails. split; [reflexivity|]. simpl. tauto.
  - simpl in Hall. apply andb_true_iff in Hall as [Hline Hrest].
    pose proof (second_field line) as Hsplit. rewrite Hline in Hsplit.
    destruct Hsplit as (name & email & fields & Hsplit).
    cbn [load_emails map]. rewrite Hsplit. unfold list_index.
    cbn [nth_error hd].
    destruct (IH Hrest (sd_set emails (py_lower name) (py_strip email)))
      as (d & Hrun & Hkeys).
    exists d. split; [exact Hrun|]. intros k. rewrite Hkeys, sd_get_set.
    simpl. destruct (String.eqb_spec (py_lower name) k) as [->|Hne].
    + split; [intros _; right; now left | intros _; left; discriminate].
    + tauto.
Qed.

Lemma load_emails_stops (lines : list string) :
  forallb has_two_fields lines = false ->
  forall emails, exists d,
    load_emails py_lower py_strip lines emails = (Raise IndexError, d).
Proof.
  induction lines as [|line rest IH]; intros Hall emails; [discriminate|].
  simpl in Hall. pose proof (second_field line) as Hsplit.
  cbn [load_emails].
  destruct (has_two_fields line).
  - destruct Hsplit as (name & email & fields & ->). unfold list_index.
    cbn [nth_error]. apply IH. exact Hall.
  - destruct Hsplit as (name & ->). exists emails. reflexivity.
Qed.

Lemma str_in_In (x : string) (l : list string) :
  str_in x l = true <-> In x l.
Proof.
  unfold str_in. rewrite existsb_exists. split.
  - intros (y & Hy & E). apply String.eqb_eq in E. now subst.
  - intros H. exists x. split; [exact H | apply String.eqb_refl].
Qed.

End LinkDataFacts.

(** X18. On the first call over the same link data, [islinked] and
    [linkedemail] agree.  [islinked] never raises.  When every line after
    the header has a comma, [linkedemail] returns, and it returns an
    address exactly when [islinked] answers True, so the report line of
    [audituser] for a linked user always has an address to print.  When
    some line after the header has no comma, [linkedemail] raises
    [IndexError] and leaves the partly filled table in the settings. *)
Theorem linkdata_consistent
    (py_lower py_strip : string -> string) (lines : list string)
    (username : string) :
  exists names,
    islinked py_lower None lines username
    = Ok (str_in (py_lower username) names, Some names)
    /\ if forallb has_two_fields (data_lines lines)
       then exists d,
           linkedemail py_lower py_strip None lines username
           = (Ok (sd_get d (py_lower username)), Some d)
           /\ (str_in (py_lower username) names = true
               <-> sd_get d (py_lower username) <> None)
       else exists d,
           linkedemail py_lower py_strip None lines username
           = (Raise IndexError, Some d).
Proof.
  exists (map (fun line => py_lower (hd "" (Str.split line ",")))
            (data_lines lines)).
  split.
  - unfold islinked. now rewrite linked_names_map.
  - destruct (forallb has_two_fields (data_lines lines)) eqn:Hall.
    + destruct (load_emails_all py_lower py_strip _ Hall [])
        as (d & Hrun & Hkeys).
      exists d. unfold linkedemail. rewrite Hrun. split; [reflexivity|].
      rewrite str_in_In, Hkeys. simpl. split; [now right|].
      intros [H|H]; [congruence | exact H].
    + destruct (load_emails_stops py_lower py_strip _ Hall [])
        as (d & Hrun).
      exists d. unfold linkedemail. now rewrite Hrun.
Qed.
